(** * xpra client network listener: a shallow embedding

    This development embeds [xpra/client/mixins/network_listener.py]
    (class [Networklistener]) and states its admission, dispatch, timer
    and teardown properties.

    The mixin is callback driven: every method runs to completion on the
    single GLib main loop.  A method is embedded as a computation in a
    state-and-exception monad over the record [client], which holds the
    attributes of [self], the part of the main loop the mixin talks to
    (timers and idle tasks) and the chronological trace of the calls made
    on collaborators (protocols, connections, the logger). *)

Set Warnings "-register-all".
From Stdlib Require Import ZArith String Ascii List Bool Lia.
From stdpp Require Import gmap strings list.
Open Scope Z_scope.
Open Scope string_scope.
Open Scope list_scope.

(** ** Python values *)

(** Object identities.  A protocol, a connection, a listening socket and
    a cleanup callable are compared by identity in the source (dict keys,
    [list.remove]); each is a number here. *)
Abbreviation proto := nat (only parsing).
Abbreviation conn := nat (only parsing).
Abbreviation listener := nat (only parsing).
Abbreviation callable := nat (only parsing).

(** The values that travel in packets and in reply payloads. *)
Inductive pyval :=
| VNone
| VStr (s : string)
| VInt (n : Z)
| VTuple (l : list pyval)
| VDict (d : gmap string pyval).

Abbreviation pydict := (gmap string pyval) (only parsing).

(** Python exceptions the embedded code can raise or catch. *)
Inductive exn :=
| AssertionError (msg : string)
| IndexError
| TypeError
| ValueError
| Exception (text : string).

(** A value, or the exception raised instead. *)
Inductive result (A : Type) :=
| Ok (a : A)
| Raise (e : exn).
Arguments Ok {A} a.
Arguments Raise {A} e.

(** The outcome of calling a collaborator that may raise an [Exception]. *)
Inductive call_outcome :=
| Returns
| Raises (text : string).

(** [xpra.common.ConnectionMessage]: the two reason codes used here. *)
Inductive ConnectionMessage :=
| PROTOCOL_ERROR
| DETACH_REQUEST.

(** ** Collaborators

    Everything the mixin calls that is defined outside the file: the
    process environment, the platform accessors, the typed dictionary
    accessors, the authorization predicate, the command delegate and the
    cleanup callables.  The theorems hold for every [Env]. *)
Record Env := {
  (* os.environ, read through xpra.util.env.envint *)
  environ_int : string -> option Z;
  (* os.environ.get *)
  environ_get : string -> option string;
  (* xpra.net.common.is_request_allowed(proto, request) *)
  is_request_allowed : proto -> string -> bool;
  (* typedict.strget(key) and typedict.strtupleget(key) *)
  strget : pydict -> string -> option string;
  strtupleget : pydict -> string -> list string;
  (* str(x) for x that is not already a str *)
  str_other : pyval -> string;
  (* typedict(x) for x that is not already a dict: a mapping, or an exception *)
  typedict_other : pyval -> result pydict;
  (* self._process_control(args): returns, or raises an Exception *)
  _process_control : list string -> call_outcome;
  (* a cleanup callable c(): returns, or raises an Exception *)
  call_cleanup : callable -> call_outcome;
  (* xpra.net.socket_util.add_listen_socket(...): a cleanup or None *)
  socket_util_add_listen_socket : string -> listener -> option callable;
  (* hasattr-style lookup done by getattr(self, name, None) *)
  has_method : string -> bool;
  (* self.get_info(), get_network_caps(), get_session_type(), platform_name() *)
  get_info : pydict;
  get_network_caps : pyval;
  get_session_type : string;
  platform_name : string;
  POSIX : bool;
  OSX : bool;
  (* int(ExitCode.OK) and int(ExitCode.FAILURE) of xpra.exit_codes *)
  ExitCode_OK : Z;
  ExitCode_FAILURE : Z;
  (* self.session_name, sys.platform, os.getpid(), get_machine_id(), version_str() *)
  session_name : string;
  sys_platform : string;
  getpid : Z;
  get_machine_id : string;
  version_str : string
}.

(** ** Module constants *)

(** Modelled from the spec: [xpra.util.env.envint(name, default)] is defined
    outside this module; it yields the integer held by the
    environment variable, or the default when the variable is unset
    ("Default timeout: 10 seconds, configurable"). *)
Definition envint (E : Env) (name : string) (d : Z) : Z :=
  match environ_int E name with
  | Some v => v
  | None => d
  end.

Definition MAX_CONCURRENT_CONNECTIONS (E : Env) : Z :=
  envint E "XPRA_MAX_CONCURRENT_CONNECTIONS" 5.

Definition REQUEST_TIMEOUT (E : Env) : Z :=
  envint E "XPRA_CLIENT_REQUEST_TIMEOUT" 10.

(** Modelled from the spec: [xpra.net.protocol.constants] is not part of
    the sources at hand; the spec names the two inbound tags
    [connection-lost] and [gibberish]. *)
Definition CONNECTION_LOST : string := "connection-lost".
Definition GIBBERISH : string := "gibberish".

(** ** The main loop and the trace *)

(** Closures handed to the main loop or to a protocol. *)
Inductive callback :=
| CbClose (p : proto)            (* close() of process_network_packet *)
| CbProtocolClosed.              (* protocol_closed() of the detach request *)

(** Closures scheduled with [idle_add]. *)
Inductive task :=
| TaskAddListenSocket (socktype : string) (sock : listener) (options : pydict)
| TaskSendInfo (p : proto)
| TaskProcessControl (p : proto) (command : list string)
| TaskMethod (name : string).

Inductive level := Debug | Info | Warn | Error.

(** One entry per call made on a collaborator, in the order made. *)
Inductive event :=
| EvLog (lv : level) (msg : string)
| EvAccept (socktype : string) (l : listener)
| EvNamedPipeConnection (l : listener) (handle : Z) (c : conn)
| EvLogNewConnection (c : conn)
| EvConnClose (c : conn)
| EvProtocolNew (p : proto) (c : conn)
| EvProtocolStart (p : proto)
| EvProtocolClose (p : proto)
| EvParseRemoteCaps (p : proto) (caps : pydict)
| EvEnableCompressor (p : proto) (caps : pydict)
| EvEnableEncoder (p : proto) (caps : pydict)
| EvProtocolSetAttr (p : proto) (name : string) (v : pyval)
| EvSendNow (p : proto) (packet : list pyval)
| EvSendDisconnect (p : proto) (reasons : list ConnectionMessage)
                   (done_callback : option callback)
| EvTimeoutAdd (ms : Z) (cb : callback) (t : Z)
| EvSourceRemove (t : Z)
| EvIdleAdd (k : task)
| EvCleanupCall (c : callable)
| EvProcessControl (args : list string)
| EvMethodCall (name : string)
| EvDisconnectAndQuit (code : Z) (reason : string).

(** Modelled from the spec: the GLib main loop behind [timeout_add],
    [source_remove] and [idle_add] is not part of the sources at hand.
    "arm schedules a one-shot action", "disarm cancels a previously armed
    timer; it is a no-op if none is armed".  A timer is live from
    [timeout_add] until it is removed or has fired, and source ids are
    positive. *)
Record main_loop := {
  timers : list (Z * (Z * callback));   (* id, interval in ms, callback *)
  next_tid : Z;
  idle : list task
}.

(** A listening socket definition: the tuple
    [(socktype, sock, info, cleanup)] used as key of [self.sockets]. *)
Record sock_def := {
  sd_socktype : string;
  sd_sock : listener;
  sd_info : string;
  sd_cleanup : callable
}.

(** The attributes of [self], the main loop and the trace.  The
    insertion-ordered dicts that are iterated ([sockets],
    [_close_timers]) are association lists with unique keys. *)
Record client := {
  exit_code : option Z;
  sockets : list (sock_def * pydict);
  socket_info : gmap nat string;
  socket_options : gmap nat pydict;
  socket_cleanup : list callable;
  _potential_protocols : list proto;
  _close_timers : list (proto * Z);
  next_object : nat;
  loop : main_loop;
  trace : list event
}.

Definition set_sockets (v : list (sock_def * pydict)) (st : client) : client :=
  {| exit_code := exit_code st; sockets := v; socket_info := socket_info st;
     socket_options := socket_options st; socket_cleanup := socket_cleanup st;
     _potential_protocols := _potential_protocols st;
     _close_timers := _close_timers st; next_object := next_object st;
     loop := loop st; trace := trace st |}.

Definition set_socket_info (v : gmap nat string) (st : client) : client :=
  {| exit_code := exit_code st; sockets := sockets st; socket_info := v;
     socket_options := socket_options st; socket_cleanup := socket_cleanup st;
     _potential_protocols := _potential_protocols st;
     _close_timers := _close_timers st; next_object := next_object st;
     loop := loop st; trace := trace st |}.

Definition set_socket_options (v : gmap nat pydict) (st : client) : client :=
  {| exit_code := exit_code st; sockets := sockets st; socket_info := socket_info st;
     socket_options := v; socket_cleanup := socket_cleanup st;
     _potential_protocols := _potential_protocols st;
     _close_timers := _close_timers st; next_object := next_object st;
     loop := loop st; trace := trace st |}.

Definition set_socket_cleanup (v : list callable) (st : client) : client :=
  {| exit_code := exit_code st; sockets := sockets st; socket_info := socket_info st;
     socket_options := socket_options st; socket_cleanup := v;
     _potential_protocols := _potential_protocols st;
     _close_timers := _close_timers st; next_object := next_object st;
     loop := loop st; trace := trace st |}.

Definition set_potential_protocols (v : list proto) (st : client) : client :=
  {| exit_code := exit_code st; sockets := sockets st; socket_info := socket_info st;
     socket_options := socket_options st; socket_cleanup := socket_cleanup st;
     _potential_protocols := v;
     _close_timers := _close_timers st; next_object := next_object st;
     loop := loop st; trace := trace st |}.

Definition set_close_timers (v : list (proto * Z)) (st : client) : client :=
  {| exit_code := exit_code st; sockets := sockets st; socket_info := socket_info st;
     socket_options := socket_options st; socket_cleanup := socket_cleanup st;
     _potential_protocols := _potential_protocols st;
     _close_timers := v; next_object := next_object st;
     loop := loop st; trace := trace st |}.

Definition set_next_object (v : nat) (st : client) : client :=
  {| exit_code := exit_code st; sockets := sockets st; socket_info := socket_info st;
     socket_options := socket_options st; socket_cleanup := socket_cleanup st;
     _potential_protocols := _potential_protocols st;
     _close_timers := _close_timers st; next_object := v;
     loop := loop st; trace := trace st |}.

Definition set_loop (v : main_loop) (st : client) : client :=
  {| exit_code := exit_code st; sockets := sockets st; socket_info := socket_info st;
     socket_options := socket_options st; socket_cleanup := socket_cleanup st;
     _potential_protocols := _potential_protocols st;
     _close_timers := _close_timers st; next_object := next_object st;
     loop := v; trace := trace st |}.

Definition set_trace (v : list event) (st : client) : client :=
  {| exit_code := exit_code st; sockets := sockets st; socket_info := socket_info st;
     socket_options := socket_options st; socket_cleanup := socket_cleanup st;
     _potential_protocols := _potential_protocols st;
     _close_timers := _close_timers st; next_object := next_object st;
     loop := loop st; trace := v |}.

Definition set_exit_code (v : option Z) (st : client) : client :=
  {| exit_code := v; sockets := sockets st; socket_info := socket_info st;
     socket_options := socket_options st; socket_cleanup := socket_cleanup st;
     _potential_protocols := _potential_protocols st;
     _close_timers := _close_timers st; next_object := next_object st;
     loop := loop st; trace := trace st |}.

(** [Networklistener.__init__], with an idle main loop and an empty trace. *)
Definition init_client : client :=
  {| exit_code := None; sockets := []; socket_info := ∅; socket_options := ∅;
     socket_cleanup := []; _potential_protocols := []; _close_timers := [];
     next_object := 0%nat;
     loop := {| timers := []; next_tid := 1; idle := [] |};
     trace := [] |}.

(** ** The state-and-exception monad *)

Definition M (A : Type) : Type := client -> result A * client.

Definition ret {A} (a : A) : M A := fun st => (Ok a, st).

Definition bind {A B} (m : M A) (f : A -> M B) : M B :=
  fun st =>
    match m st with
    | (Ok a, st') => f a st'
    | (Raise e, st') => (Raise e, st')
    end.

Definition raise {A} (e : exn) : M A := fun st => (Raise e, st).

Definition gets {A} (f : client -> A) : M A := fun st => (Ok (f st), st).

Definition modify (f : client -> client) : M unit := fun st => (Ok tt, f st).

(** [try: m except <handled>: h] *)
Definition try_except {A} (m : M A) (handled : exn -> bool) (h : exn -> M A) : M A :=
  fun st =>
    match m st with
    | (Ok a, st') => (Ok a, st')
    | (Raise e, st') => if handled e then h e st' else (Raise e, st')
    end.

Notation "x <- c1 ;; c2" := (bind c1 (fun x => c2))
  (at level 100, c1 at next level, right associativity).
Notation "c1 ;; c2" := (bind c1 (fun _ => c2))
  (at level 100, right associativity).

(** The state a computation leaves, and whether it returned. *)
Definition exec {A} (m : M A) (st : client) : client := snd (m st).
Definition returns {A} (m : M A) (st : client) : bool :=
  match fst (m st) with Ok _ => true | Raise _ => false end.

(** The events a computation adds to the trace of [st]. *)
Definition emitted {A} (m : M A) (st : client) : list event :=
  drop (length (trace st)) (trace (exec m st)).

(** ** Primitive operations *)

Definition emit (ev : event) : M unit :=
  modify (fun st => set_trace (trace st ++ [ev]) st).

Definition log (lv : level) (msg : string) : M unit := emit (EvLog lv msg).

Fixpoint for_each {A} (l : list A) (body : A -> M unit) : M unit :=
  match l with
  | [] => ret tt
  | x :: l' => body x ;; for_each l' body
  end.

(** [with log.trap_error(msg): body].  Modelled from the spec: the logger
    is not part of the sources at hand; "soft-failure (log, continue)
    rather than abort-on-first-error".  Every exception of [exn] derives
    from [Exception] and is trapped. *)
Definition trap_error (msg : string) (body : M unit) : M unit :=
  try_except body (fun _ => true) (fun _ => log Error msg).

(** [self.timeout_add(ms, cb)]: a fresh source id, live on the loop. *)
Definition timeout_add (ms : Z) (cb : callback) : M Z :=
  fun st =>
    let l := loop st in
    let t := next_tid l in
    (Ok t,
     set_trace (trace st ++ [EvTimeoutAdd ms cb t])
       (set_loop {| timers := timers l ++ [(t, (ms, cb))];
                    next_tid := t + 1;
                    idle := idle l |} st)).

Definition cancel_timer (t : Z) (l : main_loop) : main_loop :=
  {| timers := List.filter (fun e => negb (fst e =? t)%Z) (timers l);
     next_tid := next_tid l;
     idle := idle l |}.

(** [self.source_remove(tid)] *)
Definition source_remove (t : Z) : M unit :=
  modify (fun st => set_loop (cancel_timer t (loop st)) st) ;;
  emit (EvSourceRemove t).

(** [self.idle_add(fn, *args)] *)
Definition idle_add (k : task) : M unit :=
  modify (fun st =>
    let l := loop st in
    set_loop {| timers := timers l; next_tid := next_tid l;
                idle := idle l ++ [k] |} st) ;;
  emit (EvIdleAdd k).

(** Insertion-ordered dict operations on an association list. *)
Fixpoint dict_get {V} (k : nat) (d : list (nat * V)) : option V :=
  match d with
  | [] => None
  | (k', v) :: d' => if (k' =? k)%nat then Some v else dict_get k d'
  end.

(** [d[k] = v]: an existing key keeps its position. *)
Fixpoint dict_set {V} (k : nat) (v : V) (d : list (nat * V)) : list (nat * V) :=
  match d with
  | [] => [(k, v)]
  | (k', v') :: d' =>
      if (k' =? k)%nat then (k, v) :: d' else (k', v') :: dict_set k v d'
  end.

Fixpoint dict_del {V} (k : nat) (d : list (nat * V)) : list (nat * V) :=
  match d with
  | [] => []
  | (k', v') :: d' => if (k' =? k)%nat then d' else (k', v') :: dict_del k d'
  end.

(** [l.remove(x)]: drops the first occurrence; [None] stands for
    [ValueError]. *)
Fixpoint list_remove (x : nat) (l : list nat) : option (list nat) :=
  match l with
  | [] => None
  | y :: l' =>
      if (y =? x)%nat then Some l'
      else match list_remove x l' with
           | Some r => Some (y :: r)
           | None => None
           end
  end.

(** [str(x)] *)
Definition py_str (E : Env) (v : pyval) : string :=
  match v with
  | VStr s => s
  | _ => str_other E v
  end.

(** A value or an exception that does not depend on the state. *)
Definition lift {A} (r : result A) : M A := fun st => (r, st).

(** [typedict(x)] *)
Definition typedict (E : Env) (v : pyval) : result (gmap string pyval) :=
  match v with
  | VDict d => Ok d
  | _ => typedict_other E v
  end.

(** [packet[i]] *)
Definition getitem (packet : list pyval) (i : nat) : M pyval :=
  match nth_error packet i with
  | Some v => ret v
  | None => raise IndexError
  end.

(** The truth value of a string, and [a or b] on strings. *)
Definition str_truthy (s : string) : bool := negb (s =? "")%string.
Definition str_or (a b : string) : string := if str_truthy a then a else b.

Definition lower_ascii (c : ascii) : ascii :=
  let n := nat_of_ascii c in
  if ((65 <=? n) && (n <=? 90))%nat then ascii_of_nat (n + 32) else c.

(** [s.lower()] on ASCII text. *)
Fixpoint lower (s : string) : string :=
  match s with
  | EmptyString => EmptyString
  | String c s' => String (lower_ascii c) (lower s')
  end.

(** [s.replace(a, b)] for single characters. *)
Fixpoint replace_char (a b : ascii) (s : string) : string :=
  match s with
  | EmptyString => EmptyString
  | String c s' =>
      String (if Ascii.eqb c a then b else c) (replace_char a b s')
  end.

(** Calling a cleanup callable. *)
Definition call (E : Env) (c : callable) : M unit :=
  emit (EvCleanupCall c) ;;
  match call_cleanup E c with
  | Returns => ret tt
  | Raises text => raise (Exception text)
  end.

(** [proto.close()] *)
Definition proto_close (p : proto) : M unit := emit (EvProtocolClose p).

(** [proto.send_disconnect(reasons, done_callback=...)] *)
Definition send_disconnect (p : proto) (reasons : list ConnectionMessage)
    (done_callback : option callback) : M unit :=
  emit (EvSendDisconnect p reasons done_callback).

(** A fresh object identity. *)
Definition new_object : M nat :=
  fun st => (Ok (next_object st), set_next_object (S (next_object st)) st).

(** ** The methods of [Networklistener] *)

Section Networklistener.
Variable E : Env.

(** [hello_reply(data)] of [handle_hello_request]:
    [proto.send_now(["hello", data])]. *)
Definition hello_reply (p : proto) (data : gmap string pyval) : M unit :=
  emit (EvSendNow p [VStr "hello"; VDict data]).

(** [get_id_info]: minimal information for identifying the session. *)
Definition get_id_info : gmap string pyval :=
  <["machine-id" := VStr (get_machine_id E)]>
  (<["pid" := VInt (getpid E)]>
  (<["platform" := VStr (sys_platform E)]>
  (<["session-name" := VStr (session_name E)]>
  (<["session-type" := VStr "client"]> ∅)))).

(** [a or b] on the results of [os.environ.get]. *)
Definition opt_or (a b : option string) : option string :=
  match a with
  | Some s => if str_truthy s then a else b
  | None => b
  end.

(** [send_info()] of the [info] request, run from the idle queue. *)
Definition send_info (p : proto) : M unit :=
  let info := get_info E in
  let info := <["network" := get_network_caps E]> info in
  let info :=
    <["session-type" :=
        VStr (str_or (get_session_type E) (platform_name E) ++ " client")]> info in
  let display := opt_or (environ_get E "WAYLAND_DISPLAY") (environ_get E "DISPLAY") in
  let info :=
    match display with
    | Some d =>
        if str_truthy d && POSIX E && negb (OSX E)
        then <["display" := VStr d]> info
        else info
    | None => info
    end in
  hello_reply p info.

(** [process_control()] of the [command] request, run from the idle
    queue. *)
Definition process_control (p : proto) (command : list string) : M unit :=
  cr <- try_except
          (emit (EvProcessControl ("control" :: command)) ;;
           match _process_control E ("control" :: command) with
           | Returns => ret (ExitCode_OK E, "done")
           | Raises text => raise (Exception text)
           end)
          (fun _ => true)
          (fun e =>
             match e with
             | Exception text => ret (ExitCode_FAILURE E, text)
             | _ => ret (ExitCode_FAILURE E, "")
             end) ;;
  hello_reply p {[ "command_response" := VTuple [VInt (fst cr); VStr (snd cr)] ]}.

Definition is_ui_request (request : string) : bool :=
  (request =? "show-menu")%string || (request =? "show-about")%string
  || (request =? "show-session-info")%string.

Definition handle_hello_request (p : proto) (request : string)
    (caps : gmap string pyval) : M unit :=
  if negb (is_request_allowed E p request) then
    log Info "request '%s' is not handled by this client" ;;
    send_disconnect p [PROTOCOL_ERROR] None
  else if (request =? "info")%string then
    (* run in UI thread *)
    idle_add (TaskSendInfo p)
  else if (request =? "id")%string then
    hello_reply p get_id_info
  else if (request =? "detach")%string then
    send_disconnect p [DETACH_REQUEST] (Some CbProtocolClosed)
  else if (request =? "version")%string then
    hello_reply p {[ "version" := VStr (version_str E) ]}
  else if is_ui_request request then
    let fn := replace_char "-" "_" request in
    if negb (has_method E fn) then
      hello_reply p {[ "error" := VStr (request ++ " not found") ]}
    else
      log Info "calling {fn}" ;;
      idle_add (TaskMethod fn) ;;
      hello_reply p ∅
  else if (request =? "connect_test")%string then
    hello_reply p ∅
  else if (request =? "command")%string then
    let command := strtupleget E caps "command_request" in
    log Debug "command request: %s" ;;
    idle_add (TaskProcessControl p command)
  else
    log Info "`{request}` requests are not handled by this client" ;;
    send_disconnect p [PROTOCOL_ERROR] None.

(** [close()] of [process_network_packet]. *)
Definition close (p : proto) : M unit :=
  (* t = self._close_timers.pop(proto, None) *)
  t <- gets (fun st => dict_get p (_close_timers st)) ;;
  modify (fun st => set_close_timers (dict_del p (_close_timers st)) st) ;;
  (* if t: proto.close() *)
  match t with
  | Some tid => if (tid =? 0)%Z then ret tt else proto_close p
  | None => ret tt
  end ;;
  (* try: self._potential_protocols.remove(proto) except ValueError: pass *)
  try_except
    (pp <- gets _potential_protocols ;;
     match list_remove p pp with
     | Some pp' => modify (set_potential_protocols pp')
     | None => raise ValueError
     end)
    (fun e => match e with ValueError => true | _ => false end)
    (fun _ => ret tt).

Definition process_network_packet (p : proto) (packet : list pyval) : M unit :=
  log Debug "process_network_packet: %s" ;;
  p0 <- getitem packet 0 ;;
  let packet_type := py_str E p0 in
  if (packet_type =? "hello")%string then
    p1 <- getitem packet 1 ;;
    caps <- lift (typedict E p1) ;;
    emit (EvParseRemoteCaps p caps) ;;
    emit (EvEnableCompressor p caps) ;;
    emit (EvEnableEncoder p caps) ;;
    let request := strget E caps "request" in
    match request with
    | Some r => if str_truthy r then handle_hello_request p r caps else ret tt
    | None => ret tt
    end ;;
    (* make sure the connection is closed *)
    tid <- timeout_add (REQUEST_TIMEOUT E * 1000) (CbClose p) ;;
    modify (fun st => set_close_timers (dict_set p tid (_close_timers st)) st)
  else if (packet_type =? CONNECTION_LOST)%string || (packet_type =? GIBBERISH)%string then
    close p
  else
    log Info "packet '%s' is not handled by this client" ;;
    send_disconnect p [PROTOCOL_ERROR] None ;;
    (* make sure the connection is closed *)
    tid <- timeout_add (REQUEST_TIMEOUT E * 1000) (CbClose p) ;;
    modify (fun st => set_close_timers (dict_set p tid (_close_timers st)) st).

Definition make_protocol (socktype : string) (c : conn) (l : listener) : M unit :=
  let socktype := lower socktype in
  (* protocol = SocketProtocol(self, conn, self.process_network_packet) *)
  p <- new_object ;;
  emit (EvProtocolNew p c) ;;
  emit (EvProtocolSetAttr p "socket_type" (VStr socktype)) ;;
  modify (fun st => set_potential_protocols (_potential_protocols st ++ [p]) st) ;;
  emit (EvProtocolSetAttr p "authenticators" (VTuple [])) ;;
  emit (EvProtocolStart p).

(** [accepted] is what [accept_connection] returns when it is called: a
    connection, or [None]. *)
Definition handle_new_connection (socktype : string) (l : listener)
    (handle : Z) (accepted : option conn) : M unit :=
  (if str_truthy socktype then ret tt
   else raise (AssertionError "cannot find socket type for %s")) ;;
  socket_options <- gets (fun st => default ∅ (socket_options st !! l)) ;;
  if (socktype =? "named-pipe")%string then
    (* conn = NamedPipeConnection(listener.pipe_name, handle, socket_options) *)
    c <- new_object ;;
    emit (EvNamedPipeConnection l handle c) ;;
    log Info "New %s connection received on %s" ;;
    make_protocol socktype c l
  else
    emit (EvAccept socktype l) ;;
    match accepted with
    | None => ret tt
    | Some c =>
        (* limit number of concurrent network connections *)
        n <- gets (fun st => Z.of_nat (length (_potential_protocols st))) ;;
        if (n >=? MAX_CONCURRENT_CONNECTIONS E)%Z then
          log Error "Error: too many connections (%i)" ;;
          log Error " ignoring new one: %s" ;;
          emit (EvConnClose c)
        else
          (* sockname is only logged; getsockname errors are swallowed *)
          log Debug "handle_new_connection%s sockname=%s" ;;
          emit (EvLogNewConnection c) ;;
          make_protocol socktype c l
    end.

Definition _new_connection (socktype : string) (l : listener) (handle : Z)
    (accepted : option conn) : M bool :=
  log Debug "_new_connection%s" ;;
  ec <- gets exit_code ;;
  match ec with
  | Some _ =>
      log Debug "ignoring new connection during shutdown" ;;
      ret false
  | None =>
      trap_error "Error handling new {socktype} connection"
        (handle_new_connection socktype l handle accepted) ;;
      ec' <- gets exit_code ;;
      ret (match ec' with None => true | Some _ => false end)
  end.

Definition add_listen_socket (socktype : string) (sock : listener)
    (options : gmap string pyval) : M unit :=
  log Debug "add_listen_socket(%s, %s, %s) info=%s" ;;
  match socket_util_add_listen_socket E socktype sock with
  | Some c =>
      modify (fun st => set_socket_cleanup (socket_cleanup st ++ [c]) st)
  | None => ret tt
  end.

Definition start_listen_sockets : M unit :=
  socks <- gets sockets ;;
  for_each socks (fun so =>
    let sd := fst so in
    let options := snd so in
    log Debug "start_listen_sockets() will add %s socket %s (%s)" ;;
    modify (fun st =>
      set_socket_info (<[sd_sock sd := sd_info sd]> (socket_info st)) st) ;;
    modify (fun st =>
      set_socket_options (<[sd_sock sd := options]> (socket_options st)) st) ;;
    idle_add (TaskAddListenSocket (sd_socktype sd) (sd_sock sd) options)).

Definition cleanup_sockets : M unit :=
  ct <- gets _close_timers ;;
  modify (set_close_timers []) ;;
  for_each ct (fun pt =>
    source_remove (snd pt) ;;
    proto_close (fst pt)) ;;
  socket_cleanup <- gets socket_cleanup ;;
  log Debug "cleanup_sockets() socket_cleanup=%s" ;;
  modify (set_socket_cleanup []) ;;
  for_each socket_cleanup (fun c =>
    trap_error "Error during socket listener cleanup %s" (call E c)) ;;
  sockets <- gets sockets ;;
  modify (set_sockets []) ;;
  log Debug "cleanup_sockets() sockets=%s" ;;
  for_each sockets (fun so =>
    let c := sd_cleanup (fst so) in
    trap_error "Error during socket cleanup %s" (call E c)).

Definition run : M unit := start_listen_sockets.

Definition cleanup : M unit := cleanup_sockets.

(** ** The main loop driving the callbacks *)

Definition run_callback (cb : callback) : M unit :=
  match cb with
  | CbClose p => close p
  | CbProtocolClosed =>
      (* self.disconnect_and_quit(ExitCode.OK, "network request") *)
      emit (EvDisconnectAndQuit (ExitCode_OK E) "network request")
  end.

Definition run_task (k : task) : M unit :=
  match k with
  | TaskAddListenSocket socktype sock options =>
      add_listen_socket socktype sock options
  | TaskSendInfo p => send_info p
  | TaskProcessControl p command => process_control p command
  | TaskMethod name => emit (EvMethodCall name)
  end.

Fixpoint find_timer (t : Z) (l : list (Z * (Z * callback))) : option callback :=
  match l with
  | [] => None
  | (t', (_, cb)) :: l' => if (t' =? t)%Z then Some cb else find_timer t l'
  end.

(** A live timer fires: its callback runs and, returning [None], is not
    rescheduled. *)
Definition fire_timer (t : Z) : M unit :=
  cb <- gets (fun st => find_timer t (timers (loop st))) ;;
  match cb with
  | Some cb =>
      run_callback cb ;;
      modify (fun st => set_loop (cancel_timer t (loop st)) st)
  | None => ret tt
  end.

(** The loop runs the oldest idle task. *)
Definition run_idle : M unit :=
  q <- gets (fun st => idle (loop st)) ;;
  match q with
  | [] => ret tt
  | k :: q' =>
      modify (fun st =>
        let l := loop st in
        set_loop {| timers := timers l; next_tid := next_tid l; idle := q' |} st) ;;
      run_task k
  end.

(** What the outside world can make the loop do. *)
Inductive input :=
| InConnection (socktype : string) (l : listener) (handle : Z) (accepted : option conn)
| InPacket (p : proto) (packet : list pyval)
| InTimer (t : Z)
| InIdle
| InRun
| InCleanup.

Definition step (i : input) (st : client) : client :=
  match i with
  | InConnection socktype l handle accepted =>
      exec (_new_connection socktype l handle accepted) st
  | InPacket p packet => exec (process_network_packet p packet) st
  | InTimer t => exec (fire_timer t) st
  | InIdle => exec run_idle st
  | InRun => exec run st
  | InCleanup => exec cleanup st
  end.

Definition steps (ins : list input) (st : client) : client :=
  fold_left (fun s i => step i s) ins st.

End Networklistener.

(** ** A concrete environment and concrete runs *)

Fixpoint strs_of (l : list pyval) : list string :=
  match l with
  | VStr s :: l' => s :: strs_of l'
  | _ :: l' => strs_of l'
  | [] => []
  end.

(** An environment with no variable set, in which protocol 0 may request
    anything and the others anything but [command]; the command
    [fail] raises and the cleanup callable 2 raises.  The exit codes are
    numbered as [xpra.exit_codes.ExitCode] numbers them: [OK] is 0 and
    [FAILURE] is 7. *)
Definition env0 : Env :=
  {| environ_int := fun _ => None;
     environ_get := fun _ => None;
     is_request_allowed := fun p r => (p =? 0)%nat || negb (r =? "command")%string;
     strget := fun caps k =>
       match caps !! k with Some (VStr s) => Some s | _ => None end;
     strtupleget := fun caps k =>
       match caps !! k with Some (VTuple l) => strs_of l | _ => [] end;
     str_other := fun _ => "<object>";
     typedict_other := fun _ => Raise TypeError;
     _process_control := fun args =>
       match args with
       | [_; "fail"] => Raises "no such command"
       | _ => Returns
       end;
     call_cleanup := fun c => if (c =? 2)%nat then Raises "unlink failed" else Returns;
     socket_util_add_listen_socket := fun _ sock => Some sock;
     has_method := fun _ => true;
     get_info := ∅;
     get_network_caps := VDict ∅;
     get_session_type := "";
     platform_name := "Linux";
     POSIX := true;
     OSX := false;
     ExitCode_OK := 0;
     ExitCode_FAILURE := 7;
     session_name := "demo";
     sys_platform := "linux";
     getpid := 4242;
     get_machine_id := "0123456789abcdef";
     version_str := "6.0" |}.

(** A hello packet carrying [request]. *)
Definition hello_packet (request : string) : list pyval :=
  [VStr "hello"; VDict {[ "request" := VStr request ]}].

(** Live timers of the loop whose callback closes [p]. *)
Definition live_close_timers (p : proto) (st : client) : list Z :=
  map fst
    (List.filter (fun e =>
       match snd (snd e) with
       | CbClose q => (q =? p)%nat
       | CbProtocolClosed => false
       end) (timers (loop st))).

(** ** Vocabulary of the statements *)

(** [st] after the events [evs] were traced and the tasks [ks] queued. *)
Definition advance (evs : list event) (ks : list task) (st : client) : client :=
  set_trace (trace st ++ evs)
    (set_loop {| timers := timers (loop st);
                 next_tid := next_tid (loop st);
                 idle := idle (loop st) ++ ks |} st).

(** A computation that always returns and only traces and queues. *)
Definition simple (m : M unit) (evs : list event) (ks : list task) : Prop :=
  forall st, m st = (Ok tt, advance evs ks st).

(** The request names [handle_hello_request] has a branch for. *)
Definition dispatch_table : list string :=
  ["info"; "id"; "detach"; "version"; "show-menu"; "show-about";
   "show-session-info"; "connect_test"; "command"].

Definition in_dispatch_table (request : string) : bool :=
  existsb (String.eqb request) dispatch_table.

(** Events that put a packet or a disconnect on the wire. *)
Definition is_send (ev : event) : bool :=
  match ev with
  | EvSendNow _ _ | EvSendDisconnect _ _ _ => true
  | _ => false
  end.

(** Events that schedule or cancel a timer. *)
Definition is_timer_event (ev : event) : bool :=
  match ev with
  | EvTimeoutAdd _ _ _ | EvSourceRemove _ => true
  | _ => false
  end.

(** Events of per-connection setup. *)
Definition is_setup (ev : event) : bool :=
  match ev with
  | EvProtocolNew _ _ | EvProtocolSetAttr _ _ _ | EvProtocolStart _
  | EvLogNewConnection _ | EvNamedPipeConnection _ _ _ => true
  | _ => false
  end.

Definition is_accept (ev : event) : bool :=
  match ev with
  | EvAccept _ _ => true
  | _ => false
  end.

(** The cleanup callables invoked, in call order. *)
Fixpoint cleanup_calls (evs : list event) : list nat :=
  match evs with
  | [] => []
  | EvCleanupCall c :: evs' => c :: cleanup_calls evs'
  | _ :: evs' => cleanup_calls evs'
  end.

(** The protocols closed and the timers cancelled, in call order. *)
Fixpoint protocol_closes (evs : list event) : list nat :=
  match evs with
  | [] => []
  | EvProtocolClose p :: evs' => p :: protocol_closes evs'
  | _ :: evs' => protocol_closes evs'
  end.

Fixpoint timers_cancelled (evs : list event) : list Z :=
  match evs with
  | [] => []
  | EvSourceRemove t :: evs' => t :: timers_cancelled evs'
  | _ :: evs' => timers_cancelled evs'
  end.

(** What one trapped cleanup call traces: the call, then the error line
    when the callable raised. *)
Definition trapped_call (E : Env) (msg : string) (c : nat) : list event :=
  EvCleanupCall c ::
  match call_cleanup E c with
  | Returns => []
  | Raises _ => [EvLog Error msg]
  end.

(** What [cleanup_sockets] traces for the recorded close timers. *)
Definition timer_teardown (ct : list (nat * Z)) : list event :=
  flat_map (fun pt => [EvSourceRemove (snd pt); EvProtocolClose (fst pt)]) ct.

(** The recorded timer makes [if t:] succeed. *)
Definition timer_recorded (p : proto) (st : client) : bool :=
  match dict_get p (_close_timers st) with
  | Some tid => negb (tid =? 0)%Z
  | None => false
  end.

(** The claimed timer invariant: at most one live close timer per
    instance. *)
Definition at_most_one_live_timer (st : client) : Prop :=
  forall p, (length (live_close_timers p st) <= 1)%nat.

(** Bookkeeping invariant of the mixin's own structures. *)
Record wf (st : client) : Prop := {
  wf_pending_nodup : NoDup (_potential_protocols st);
  wf_pending_fresh : Forall (fun p => (p < next_object st)%nat) (_potential_protocols st);
  wf_timers_nodup : NoDup (map fst (_close_timers st));
  wf_timers_pos : Forall (fun pt => (0 < snd pt < next_tid (loop st))%Z) (_close_timers st);
  wf_next_tid : (0 < next_tid (loop st))%Z
}.

(** States the loop can reach from a fresh client. *)
Inductive reachable (E : Env) : client -> Prop :=
| reachable_init : reachable E init_client
| reachable_step i st : reachable E st -> reachable E (step E i st).

(** Inputs that are not named-pipe connections. *)
Definition not_named_pipe (i : input) : bool :=
  match i with
  | InConnection socktype _ _ _ => negb (socktype =? "named-pipe")%string
  | _ => true
  end.

(** The state [close()] leaves: the map entry is dropped, the protocol
    is closed when a timer was recorded, the first occurrence of the
    protocol leaves the pending list. *)
Definition after_close (p : proto) (st : client) : client :=
  set_potential_protocols
    (default (_potential_protocols st) (list_remove p (_potential_protocols st)))
    (set_trace
       (trace st ++ if timer_recorded p st then [EvProtocolClose p] else [])
       (set_close_timers (dict_del p (_close_timers st)) st)).

(** The state left by arming the close timer of [p] on [st]: a fresh
    source id joins the loop's timers and is recorded under [p]. *)
Definition after_arm (E : Env) (p : proto) (st : client) : client :=
  let tid := next_tid (loop st) in
  set_close_timers (dict_set p tid (_close_timers st))
    (set_trace (trace st ++ [EvTimeoutAdd (REQUEST_TIMEOUT E * 1000) (CbClose p) tid])
       (set_loop {| timers := timers (loop st) ++
                              [(tid, (REQUEST_TIMEOUT E * 1000, CbClose p))];
                    next_tid := tid + 1;
                    idle := idle (loop st) |} st)).

(** The tail of [process_network_packet]: arm and record. *)
Definition arm_close_timer (E : Env) (p : proto) : M unit :=
  tid <- timeout_add (REQUEST_TIMEOUT E * 1000) (CbClose p) ;;
  modify (fun st => set_close_timers (dict_set p tid (_close_timers st)) st).

(** The loop after the timers [ts] were cancelled one by one. *)
Definition cancel_all (ts : list Z) (l : main_loop) : main_loop :=
  fold_left (fun l t => cancel_timer t l) ts l.

(** Everything [cleanup_sockets] traces on [st]: the recorded timers
    are cancelled and their protocols closed, then every registered
    listener cleanup is called, then the cleanup of every socket
    definition. *)
Definition cleanup_trace (E : Env) (st : client) : list event :=
  timer_teardown (_close_timers st) ++
  [EvLog Debug "cleanup_sockets() socket_cleanup=%s"] ++
  flat_map (trapped_call E "Error during socket listener cleanup %s") (socket_cleanup st) ++
  [EvLog Debug "cleanup_sockets() sockets=%s"] ++
  flat_map (fun so => trapped_call E "Error during socket cleanup %s" (sd_cleanup (fst so)))
    (sockets st).

(** The state [cleanup_sockets] leaves. *)
Definition after_cleanup (E : Env) (st : client) : client :=
  set_sockets []
    (set_socket_cleanup []
       (set_close_timers []
          (set_trace (trace st ++ cleanup_trace E st)
             (set_loop (cancel_all (map snd (_close_timers st)) (loop st)) st)))).

(** The state [make_protocol] leaves: a fresh protocol wraps the
    connection, joins the pending list and is started. *)
Definition after_make_protocol (socktype : string) (c : conn) (st : client) : client :=
  let p := next_object st in
  set_trace
    (trace st ++
     [EvProtocolNew p c;
      EvProtocolSetAttr p "socket_type" (VStr (lower socktype));
      EvProtocolSetAttr p "authenticators" (VTuple []);
      EvProtocolStart p])
    (set_potential_protocols (_potential_protocols st ++ [p])
       (set_next_object (S p) st)).

(** The state [_new_connection] leaves, case by case. *)
Definition after_new_connection (E : Env) (socktype : string) (l : listener)
    (handle : Z) (accepted : option conn) (st : client) : client :=
  let st0 := advance [EvLog Debug "_new_connection%s"] [] st in
  match exit_code st with
  | Some _ => advance [EvLog Debug "ignoring new connection during shutdown"] [] st0
  | None =>
      if negb (str_truthy socktype) then
        advance [EvLog Error "Error handling new {socktype} connection"] [] st0
      else if (socktype =? "named-pipe")%string then
        let c := next_object st in
        after_make_protocol socktype c
          (advance [EvNamedPipeConnection l handle c;
                    EvLog Info "New %s connection received on %s"] []
             (set_next_object (S c) st0))
      else
        match accepted with
        | None => advance [EvAccept socktype l] [] st0
        | Some c =>
            if (Z.of_nat (length (_potential_protocols st)) >=?
                MAX_CONCURRENT_CONNECTIONS E)%Z
            then advance [EvAccept socktype l;
                          EvLog Error "Error: too many connections (%i)";
                          EvLog Error " ignoring new one: %s";
                          EvConnClose c] [] st0
            else after_make_protocol socktype c
                   (advance [EvAccept socktype l;
                             EvLog Debug "handle_new_connection%s sockname=%s";
                             EvLogNewConnection c] [] st0)
        end
  end.

(** The bookkeeping the invariants talk about. *)
Definition book (st : client) : list nat * nat * list (nat * Z) * Z :=
  (_potential_protocols st, next_object st, _close_timers st, next_tid (loop st)).

(** A computation keeps [P], whether it returns or raises. *)
Definition keeps (P : client -> Prop) {A} (m : M A) : Prop :=
  forall st, P st -> P (exec m st).

(** [P] only looks at the bookkeeping. *)
Definition book_only (P : client -> Prop) : Prop :=
  forall st st', book st' = book st -> P st -> P st'.

(** The pending set is within the bound (which an environment may set
    below zero). *)
Definition bounded (E : Env) (st : client) : Prop :=
  (Z.of_nat (length (_potential_protocols st)) <= Z.max 0 (MAX_CONCURRENT_CONNECTIONS E))%Z.

(** Hello replies, disconnects, and queued tasks that will reply. *)
Definition is_send_now (ev : event) : bool :=
  match ev with
  | EvSendNow _ _ => true
  | _ => false
  end.

Definition is_disconnect (ev : event) : bool :=
  match ev with
  | EvSendDisconnect _ _ _ => true
  | _ => false
  end.

Definition is_reply_task (k : task) : bool :=
  match k with
  | TaskSendInfo _ | TaskProcessControl _ _ => true
  | _ => false
  end.



(** The display [send_info] reports: [WAYLAND_DISPLAY], else [DISPLAY],
    and only on POSIX systems other than macOS. *)
Definition reported_display (E : Env) : option string :=
  match opt_or (environ_get E "WAYLAND_DISPLAY") (environ_get E "DISPLAY") with
  | Some d => if str_truthy d && POSIX E && negb (OSX E) then Some d else None
  | None => None
  end.


(** The event addresses no protocol other than [p]: every call on a
    protocol object, every timer callback and every replying task it
    mentions is for [p]. *)
Definition about (p : proto) (ev : event) : Prop :=
  match ev with
  | EvProtocolNew q _ | EvProtocolStart q | EvProtocolClose q
  | EvParseRemoteCaps q _ | EvEnableCompressor q _ | EvEnableEncoder q _
  | EvProtocolSetAttr q _ _ | EvSendNow q _ | EvSendDisconnect q _ _
  | EvTimeoutAdd _ (CbClose q) _
  | EvIdleAdd (TaskSendInfo q) | EvIdleAdd (TaskProcessControl q _) => q = p
  | _ => True
  end.

(** ** Concrete runs used as witnesses *)

(** One TCP connection accepted on listener 7: protocol 0 is pending. *)
Definition st_accepted : client :=
  steps env0 [InConnection "tcp" 7%nat 0 (Some 100%nat)] init_client.

(** Protocol 0 then sent a hello with request [id]: timer 1 is armed. *)
Definition st_hello : client :=
  steps env0 [InPacket 0%nat (hello_packet "id")] st_accepted.

(** Five TCP connections accepted: the pending set is at the default
    bound. *)
Definition st_full : client :=
  steps env0
    [InConnection "tcp" 7%nat 0 (Some 100%nat);
     InConnection "tcp" 7%nat 0 (Some 101%nat);
     InConnection "tcp" 7%nat 0 (Some 102%nat);
     InConnection "tcp" 7%nat 0 (Some 103%nat);
     InConnection "tcp" 7%nat 0 (Some 104%nat)] init_client.

(** Three listening sockets configured, started and registered in the
    order 1, 2, 3; each registers a cleanup callable of the same number. *)
Definition three_sockets : list (sock_def * gmap string pyval) :=
  [({| sd_socktype := "tcp"; sd_sock := 1%nat; sd_info := "0.0.0.0:10000"; sd_cleanup := 11%nat |}, ∅);
   ({| sd_socktype := "socket"; sd_sock := 2%nat; sd_info := "/run/user/1000/xpra/client-1"; sd_cleanup := 12%nat |}, ∅);
   ({| sd_socktype := "named-pipe"; sd_sock := 3%nat; sd_info := "xpra-client"; sd_cleanup := 13%nat |}, ∅)].

Definition st_listening : client :=
  steps env0 [InRun; InIdle; InIdle; InIdle] (set_sockets three_sockets init_client).

(** A shutting-down client. *)
Definition st_exiting : client := set_exit_code (Some 0) st_accepted.

(** Protocol 0 lost its connection after its hello: it is evicted but
    timer 1 is still scheduled. *)
Definition st_lost : client :=
  steps env0 [InPacket 0%nat [VStr "connection-lost"]] st_hello.

(** ** Reasoning about computations *)

Lemma advance_nil st : advance [] [] st = st.
Proof.
  destruct st as [? ? ? ? ? ? ? ? [? ? ?] ?]; unfold advance; cbn.
  now rewrite !app_nil_r.
Qed.

Lemma advance_advance e1 k1 e2 k2 st :
  advance e2 k2 (advance e1 k1 st) = advance (e1 ++ e2) (k1 ++ k2) st.
Proof.
  unfold advance; cbn. now rewrite !app_assoc.
Qed.

Lemma trace_advance evs ks st : trace (advance evs ks st) = trace st ++ evs.
Proof. reflexivity. Qed.

Lemma simple_ret : simple (ret tt) [] [].
Proof. intros st. unfold ret. now rewrite advance_nil. Qed.

Lemma simple_emit ev : simple (emit ev) [ev] [].
Proof.
  intros st. unfold emit, modify, advance.
  destruct st as [? ? ? ? ? ? ? ? [? ? ?] ?]; cbn.
  now rewrite app_nil_r.
Qed.

Lemma simple_log lv msg : simple (log lv msg) [EvLog lv msg] [].
Proof. apply simple_emit. Qed.

Lemma simple_bind (m1 m2 : M unit) e1 k1 e2 k2 :
  simple m1 e1 k1 -> simple m2 e2 k2 ->
  simple (m1 ;; m2) (e1 ++ e2) (k1 ++ k2).
Proof.
  intros H1 H2 st. unfold bind. rewrite H1, H2. now rewrite advance_advance.
Qed.

Lemma bind_ret {A B} (a : A) (f : A -> M B) st : bind (ret a) f st = f a st.
Proof. reflexivity. Qed.

Lemma bind_gets {A B} (g : client -> A) (f : A -> M B) st :
  bind (gets g) f st = f (g st) st.
Proof. reflexivity. Qed.

Lemma bind_modify {B} (g : client -> client) (f : unit -> M B) st :
  bind (modify g) f st = f tt (g st).
Proof. reflexivity. Qed.

Lemma bind_simple {B} (m : M unit) evs ks (f : unit -> M B) st :
  simple m evs ks -> bind m f st = f tt (advance evs ks st).
Proof. intros H. unfold bind. now rewrite H. Qed.

Lemma simple_idle_add k : simple (idle_add k) [EvIdleAdd k] [k].
Proof.
  intros st. unfold idle_add, bind, modify.
  rewrite (simple_emit (EvIdleAdd k)). unfold advance; cbn.
  now rewrite app_nil_r.
Qed.

Lemma simple_send_disconnect p reasons cb :
  simple (send_disconnect p reasons cb) [EvSendDisconnect p reasons cb] [].
Proof. apply simple_emit. Qed.

Lemma simple_hello_reply p data :
  simple (hello_reply p data) [EvSendNow p [VStr "hello"; VDict data]] [].
Proof. apply simple_emit. Qed.

Lemma simple_proto_close p : simple (proto_close p) [EvProtocolClose p] [].
Proof. apply simple_emit. Qed.

Lemma emitted_advance {A} (m : M A) evs ks st :
  exec m st = advance evs ks st -> emitted m st = evs.
Proof.
  intros H. unfold emitted. rewrite H, trace_advance.
  apply drop_app_length.
Qed.

Lemma simple_exec m evs ks st : simple m evs ks -> exec m st = advance evs ks st.
Proof. intros H. unfold exec. now rewrite H. Qed.

Lemma simple_emitted m evs ks st : simple m evs ks -> emitted m st = evs.
Proof. intros H. eapply emitted_advance, simple_exec, H. Qed.

Lemma simple_returns m evs ks st : simple m evs ks -> returns m st = true.
Proof. intros H. unfold returns. now rewrite H. Qed.

Create HintDb simple_db.
#[export] Hint Resolve simple_ret simple_emit simple_log simple_idle_add
  simple_send_disconnect simple_hello_reply simple_proto_close : simple_db.

(** Decomposes a straight-line computation into its events and tasks. *)
Ltac simple_steps :=
  repeat first [ solve [eauto 1 with simple_db nocore] | eapply simple_bind ].

(** ** The request dispatcher *)

(** Whatever the request, [handle_hello_request] returns, and it only
    traces and queues: it arms or cancels no timer and closes nothing. *)
Lemma handle_hello_request_simple E p request caps :
  exists evs ks,
    simple (handle_hello_request E p request caps) evs ks /\
    forallb (fun ev => negb (is_timer_event ev)) evs = true /\
    protocol_closes evs = [].
Proof.
  unfold handle_hello_request.
  repeat match goal with
         | |- context [if ?c then _ else _] => destruct c
         end;
    (do 2 eexists; split; [simple_steps | split; reflexivity]).
Qed.

Lemma not_in_dispatch_table request :
  in_dispatch_table request = false ->
  (request =? "info")%string = false /\ (request =? "id")%string = false /\
  (request =? "detach")%string = false /\ (request =? "version")%string = false /\
  is_ui_request request = false /\
  (request =? "connect_test")%string = false /\
  (request =? "command")%string = false.
Proof.
  unfold in_dispatch_table, is_ui_request; cbn [existsb dispatch_table].
  rewrite !orb_false_iff. tauto.
Qed.

(** C5: a request that the authorization predicate denies, or that has no
    branch in the dispatch table, gets no reply packet: the only thing
    sent is a disconnect whose sole reason is the protocol-error code,
    the same in both cases, and nothing is scheduled for later. *)
Theorem rejected_request_protocol_error E p request caps st :
  is_request_allowed E p request = false \/ in_dispatch_table request = false ->
  let m := handle_hello_request E p request caps in
  returns m st = true /\
  (exists msg,
     emitted m st = [EvLog Info msg; EvSendDisconnect p [PROTOCOL_ERROR] None]) /\
  List.filter is_send (emitted m st) = [EvSendDisconnect p [PROTOCOL_ERROR] None] /\
  idle (loop (exec m st)) = idle (loop st).
Proof.
  intros H m.
  assert (Hs : exists msg,
             simple m [EvLog Info msg; EvSendDisconnect p [PROTOCOL_ERROR] None] []).
  { subst m. unfold handle_hello_request.
    destruct (is_request_allowed E p request) eqn:Ha; cbn [negb].
    - destruct H as [H | H]; [discriminate |].
      apply not_in_dispatch_table in H.
      destruct H as (H1 & H2 & H3 & H4 & H5 & H6 & H7).
      rewrite H1, H2, H3, H4, H5, H6, H7.
      eexists. change [EvLog Info ?a; ?b] with ([EvLog Info a] ++ [b]).
      change (@nil task) with (@nil task ++ []). simple_steps.
    - eexists. change [EvLog Info ?a; ?b] with ([EvLog Info a] ++ [b]).
      change (@nil task) with (@nil task ++ []). simple_steps. }
  destruct Hs as [msg Hs].
  rewrite (simple_returns _ _ _ st Hs), (simple_emitted _ _ _ st Hs),
    (simple_exec _ _ _ st Hs).
  repeat split; eauto. cbn. apply app_nil_r.
Qed.

Lemma rejected_request_protocol_error_witness :
  in_dispatch_table "bogus" = false /\
  List.filter is_send (emitted (handle_hello_request env0 0%nat "bogus" ∅) st_accepted)
    = [EvSendDisconnect 0%nat [PROTOCOL_ERROR] None].
Proof.
  split; [reflexivity |].
  apply (rejected_request_protocol_error env0 0%nat "bogus" ∅ st_accepted).
  right; reflexivity.
Defined.

Lemma get_id_info_dom E :
  dom (get_id_info E) =
  ({[ "session-type"; "session-name"; "platform"; "pid"; "machine-id" ]} : gset string).
Proof.
  unfold get_id_info. rewrite !dom_insert_L, dom_empty_L. set_solver.
Qed.

(** C7: a permitted [id] request is answered within the call by one
    [hello] packet whose payload has exactly the keys [session-type],
    [session-name], [platform], [pid] and [machine-id]; [pid] is the
    process id and [machine-id] the value of the machine-id accessor.
    Nothing else is sent and nothing is left for the idle queue. *)
Theorem id_request_reply E p caps st :
  is_request_allowed E p "id" = true ->
  let m := handle_hello_request E p "id" caps in
  returns m st = true /\
  emitted m st = [EvSendNow p [VStr "hello"; VDict (get_id_info E)]] /\
  idle (loop (exec m st)) = idle (loop st) /\
  dom (get_id_info E) =
    ({[ "session-type"; "session-name"; "platform"; "pid"; "machine-id" ]} : gset string) /\
  size (get_id_info E) = 5%nat /\
  get_id_info E !! "pid" = Some (VInt (getpid E)) /\
  get_id_info E !! "machine-id" = Some (VStr (get_machine_id E)).
Proof.
  intros Ha m.
  assert (Hs : simple m [EvSendNow p [VStr "hello"; VDict (get_id_info E)]] []).
  { subst m. unfold handle_hello_request. rewrite Ha. cbn.
    apply simple_hello_reply. }
  rewrite (simple_returns _ _ _ st Hs), (simple_emitted _ _ _ st Hs),
    (simple_exec _ _ _ st Hs).
  split; [reflexivity |]. split; [reflexivity |].
  split; [cbn; apply app_nil_r |].
  split; [apply get_id_info_dom |].
  split; [| split; reflexivity].
  rewrite <- size_dom, get_id_info_dom. reflexivity.
Qed.

Lemma id_request_reply_witness :
  is_request_allowed env0 0%nat "id" = true /\
  emitted (handle_hello_request env0 0%nat "id" ∅) st_accepted
    = [EvSendNow 0%nat [VStr "hello"; VDict (get_id_info env0)]].
Proof.
  split; [reflexivity |].
  apply (id_request_reply env0 0%nat ∅ st_accepted). reflexivity.
Defined.

Lemma process_control_run E p command st :
  process_control E p command st =
  (Ok tt,
   advance
     [EvProcessControl ("control" :: command);
      EvSendNow p
        [VStr "hello";
         VDict {[ "command_response" :=
                    match _process_control E ("control" :: command) with
                    | Returns => VTuple [VInt (ExitCode_OK E); VStr "done"]
                    | Raises text => VTuple [VInt (ExitCode_FAILURE E); VStr text]
                    end ]}]] [] st).
Proof.
  unfold process_control, bind, try_except.
  rewrite (simple_emit (EvProcessControl ("control" :: command)) st).
  destruct (_process_control E ("control" :: command)); cbn [ret raise fst snd];
    unfold ret; rewrite simple_hello_reply, advance_advance; reflexivity.
Qed.

(** C6, as the code has it: a permitted [command] request schedules the
    execution on the idle queue and sends nothing yet; when the
    scheduled task runs it replies with one [hello] packet mapping
    [command_response] to (int(ExitCode.OK), "done") if the command
    delegate returned and to (int(ExitCode.FAILURE), text of the
    exception) if it raised, and the task itself returns normally either
    way.  The status of a failure is the number of [ExitCode.FAILURE],
    whatever that number is; the code never writes 1. *)
Theorem command_request_reply E p caps st :
  is_request_allowed E p "command" = true ->
  let command := strtupleget E caps "command_request" in
  let m := handle_hello_request E p "command" caps in
  let k := run_task E (TaskProcessControl p command) in
  returns m st = true /\
  List.filter is_send (emitted m st) = [] /\
  idle (loop (exec m st)) = idle (loop st) ++ [TaskProcessControl p command] /\
  forall st',
    returns k st' = true /\
    (_process_control E ("control" :: command) = Returns ->
     emitted k st' =
       [EvProcessControl ("control" :: command);
        EvSendNow p
          [VStr "hello";
           VDict {[ "command_response" :=
                      VTuple [VInt (ExitCode_OK E); VStr "done"] ]}]]) /\
    (forall text,
     _process_control E ("control" :: command) = Raises text ->
     emitted k st' =
       [EvProcessControl ("control" :: command);
        EvSendNow p
          [VStr "hello";
           VDict {[ "command_response" :=
                      VTuple [VInt (ExitCode_FAILURE E); VStr text] ]}]]).
Proof.
  intros Ha command m k.
  assert (Hs : simple m
                 [EvLog Debug "command request: %s";
                  EvIdleAdd (TaskProcessControl p command)]
                 [TaskProcessControl p command]).
  { subst m. unfold handle_hello_request. rewrite Ha. cbn.
    change [EvLog ?lv ?a; ?b] with ([EvLog lv a] ++ [b]).
    change [TaskProcessControl p command]
      with ([] ++ [TaskProcessControl p command]).
    simple_steps. }
  rewrite (simple_returns _ _ _ st Hs), (simple_emitted _ _ _ st Hs),
    (simple_exec _ _ _ st Hs).
  repeat split.
  - subst k. unfold returns, run_task. now rewrite process_control_run.
  - intros Hr. eapply emitted_advance. subst k. unfold exec, run_task.
    rewrite process_control_run, Hr. reflexivity.
  - intros text Hr. eapply emitted_advance. subst k. unfold exec, run_task.
    rewrite process_control_run, Hr. reflexivity.
Qed.

Lemma command_request_reply_witness :
  is_request_allowed env0 0%nat "command" = true /\
  emitted
    (run_task env0
       (TaskProcessControl 0%nat
          (strtupleget env0 {[ "command_request" := VTuple [VStr "fail"] ]}
             "command_request"))) st_accepted =
  [EvProcessControl ["control"; "fail"];
   EvSendNow 0%nat
     [VStr "hello";
      VDict {[ "command_response" := VTuple [VInt 7; VStr "no such command"] ]}]].
Proof.
  split; [reflexivity |].
  destruct (command_request_reply env0 0%nat
              {[ "command_request" := VTuple [VStr "fail"] ]} st_accepted eq_refl)
    as (_ & _ & _ & H).
  destruct (H st_accepted) as (_ & _ & Hraise).
  exact (Hraise "no such command" eq_refl).
Defined.

(** C6, as stated, fails: protocol 0 may run commands and the command
    [fail] raises "no such command"; the scheduled task replies with the
    status 7, the number of [ExitCode.FAILURE], and not with the status
    1 that the claim gives. *)
Lemma failed_command_status_is_not_one :
  let k := run_task env0 (TaskProcessControl 0%nat ["fail"]) in
  _process_control env0 ["control"; "fail"] = Raises "no such command" /\
  emitted k st_accepted =
    [EvProcessControl ["control"; "fail"];
     EvSendNow 0%nat
       [VStr "hello";
        VDict {[ "command_response" := VTuple [VInt 7; VStr "no such command"] ]}]] /\
  emitted k st_accepted <>
    [EvProcessControl ["control"; "fail"];
     EvSendNow 0%nat
       [VStr "hello";
        VDict {[ "command_response" := VTuple [VInt 1; VStr "no such command"] ]}]].
Proof.
  intros k.
  assert (Hem : emitted k st_accepted =
            [EvProcessControl ["control"; "fail"];
             EvSendNow 0%nat
               [VStr "hello";
                VDict {[ "command_response" :=
                           VTuple [VInt 7; VStr "no such command"] ]}]]).
  { eapply emitted_advance. unfold k, exec, run_task.
    rewrite process_control_run. reflexivity. }
  split; [reflexivity |]. split; [exact Hem |].
  rewrite Hem. intros H.
  apply (f_equal (fun evs =>
                    match evs with
                    | [_; EvSendNow _ [_; VDict d]] => d !! "command_response"
                    | _ => None
                    end)) in H.
  vm_compute in H. discriminate H.
Qed.

(** ** Packets *)

Lemma close_run p st : close p st = (Ok tt, after_close p st).
Proof.
  unfold close, after_close, timer_recorded, bind, gets, modify, try_except.
  cbn [fst snd _close_timers set_close_timers].
  destruct (dict_get p (_close_timers st)) as [tid |] eqn:Ht.
  - destruct (tid =? 0)%Z; cbn [negb].
    + unfold ret; cbn.
      destruct (list_remove p (_potential_protocols st)); cbn;
        destruct st; cbn; rewrite ?app_nil_r; reflexivity.
    + rewrite simple_proto_close. cbn.
      destruct (list_remove p (_potential_protocols st)); cbn;
        destruct st as [? ? ? ? ? ? ? ? [? ? ?] ?]; unfold advance; cbn;
        rewrite ?app_nil_r; reflexivity.
  - unfold ret; cbn.
    destruct (list_remove p (_potential_protocols st)); cbn;
      destruct st; cbn; rewrite ?app_nil_r; reflexivity.
Qed.

Lemma arm_close_timer_run E p st :
  arm_close_timer E p st = (Ok tt, after_arm E p st).
Proof. reflexivity. Qed.

(** A packet whose type is [connection-lost] or [gibberish] runs
    [close()] and nothing else. *)
Lemma process_closing_packet E p packet v st :
  nth_error packet 0 = Some v ->
  py_str E v = CONNECTION_LOST \/ py_str E v = GIBBERISH ->
  process_network_packet E p packet st =
  (Ok tt, after_close p (advance [EvLog Debug "process_network_packet: %s"] [] st)).
Proof.
  intros Hv Ht. unfold process_network_packet, bind at 1.
  rewrite simple_log. unfold bind at 1, getitem. rewrite Hv. unfold ret at 1.
  destruct Ht as [-> | ->]; cbn [String.eqb Ascii.eqb Bool.eqb orb];
    apply close_run.
Qed.

(** A [hello] packet with a mapping in second place: the embedded
    request, if any, is dispatched and then the close timer is armed. *)
Lemma process_hello_packet E p packet v v1 caps st :
  nth_error packet 0 = Some v -> py_str E v = "hello" ->
  nth_error packet 1 = Some v1 -> typedict E v1 = Ok caps ->
  exists evs ks,
    forallb (fun ev => negb (is_timer_event ev)) evs = true /\
    protocol_closes evs = [] /\
    (forall r, strget E caps "request" = Some r -> str_truthy r = true ->
               simple (handle_hello_request E p r caps) evs ks) /\
    process_network_packet E p packet st =
    (Ok tt,
     after_arm E p
       (advance
          ([EvLog Debug "process_network_packet: %s"; EvParseRemoteCaps p caps;
            EvEnableCompressor p caps; EvEnableEncoder p caps] ++ evs) ks st)).
Proof.
  intros Hv Hhello Hv1 Hcaps.
  assert (Hd : exists evs ks,
             forallb (fun ev => negb (is_timer_event ev)) evs = true /\
             protocol_closes evs = [] /\
             (forall r, strget E caps "request" = Some r -> str_truthy r = true ->
                        simple (handle_hello_request E p r caps) evs ks) /\
             simple (match strget E caps "request" with
                     | Some r => if str_truthy r
                                 then handle_hello_request E p r caps else ret tt
                     | None => ret tt
                     end) evs ks).
  { destruct (strget E caps "request") as [r |].
    - destruct (str_truthy r) eqn:Hr.
      + destruct (handle_hello_request_simple E p r caps) as (evs & ks & H1 & H2 & H3).
        exists evs, ks. repeat split; auto. intros r' [= <-] _. exact H1.
      + exists [], []. repeat split; auto using simple_ret.
        intros r' [= <-]. congruence.
    - exists [], []. repeat split; auto using simple_ret. discriminate. }
  destruct Hd as (evs & ks & H1 & H2 & H3 & H4).
  exists evs, ks. repeat split; auto.
  unfold process_network_packet.
  rewrite (bind_simple _ _ _ _ _ (simple_log _ _)).
  unfold getitem at 1. rewrite Hv, bind_ret, Hhello.
  change ("hello" =? "hello")%string with true. cbv iota.
  unfold getitem. rewrite Hv1, bind_ret, Hcaps.
  change (lift (Ok caps)) with (@ret (gmap string pyval) caps). rewrite bind_ret.
  rewrite (bind_simple _ _ _ _ _ (simple_emit _)).
  rewrite (bind_simple _ _ _ _ _ (simple_emit _)).
  rewrite (bind_simple _ _ _ _ _ (simple_emit _)).
  rewrite (bind_simple _ _ _ _ _ H4).
  rewrite !advance_advance. cbn [app].
  apply arm_close_timer_run.
Qed.

(** Any other packet type is answered with a protocol-error disconnect,
    and the close timer is armed. *)
Lemma process_other_packet E p packet v st :
  nth_error packet 0 = Some v ->
  py_str E v <> "hello" ->
  py_str E v <> CONNECTION_LOST -> py_str E v <> GIBBERISH ->
  process_network_packet E p packet st =
  (Ok tt,
   after_arm E p
     (advance
        [EvLog Debug "process_network_packet: %s";
         EvLog Info "packet '%s' is not handled by this client";
         EvSendDisconnect p [PROTOCOL_ERROR] None] [] st)).
Proof.
  intros Hv H1 H2 H3.
  apply String.eqb_neq in H1, H2, H3.
  unfold process_network_packet.
  rewrite (bind_simple _ _ _ _ _ (simple_log _ _)).
  unfold getitem at 1. rewrite Hv, bind_ret, H1, H2, H3. cbn [orb].
  rewrite (bind_simple _ _ _ _ _ (simple_log _ _)).
  rewrite (bind_simple _ _ _ _ _ (simple_send_disconnect _ _ _)).
  rewrite !advance_advance. cbn [app].
  apply arm_close_timer_run.
Qed.

(** A packet that is not a closing one and on which the handler returns
    has armed the close timer, after events that touch no timer. *)
Lemma process_arming_packet E p packet v st :
  nth_error packet 0 = Some v ->
  py_str E v <> CONNECTION_LOST -> py_str E v <> GIBBERISH ->
  returns (process_network_packet E p packet) st = true ->
  exists evs ks,
    forallb (fun ev => negb (is_timer_event ev)) evs = true /\
    protocol_closes evs = [] /\
    process_network_packet E p packet st =
      (Ok tt, after_arm E p (advance evs ks st)).
Proof.
  intros Hv H2 H3 Hret.
  destruct (String.eqb_spec (py_str E v) "hello") as [Hh | Hh].
  - destruct (nth_error packet 1) as [v1 |] eqn:Hv1.
    + destruct (typedict E v1) as [caps | e] eqn:Hc.
      * destruct (process_hello_packet E p packet v v1 caps st Hv Hh Hv1 Hc)
          as (evs & ks & F1 & F2 & _ & F4).
        eexists _, ks. split; [| split; [| exact F4]].
        -- cbn [app forallb is_timer_event negb andb]. exact F1.
        -- cbn [app protocol_closes]. exact F2.
      * exfalso. revert Hret. unfold returns, process_network_packet.
        rewrite (bind_simple _ _ _ _ _ (simple_log _ _)).
        unfold getitem at 1. rewrite Hv, bind_ret, Hh.
        change ("hello" =? "hello")%string with true. cbv iota.
        unfold getitem. rewrite Hv1, bind_ret, Hc. cbn. discriminate.
    + exfalso. revert Hret. unfold returns, process_network_packet.
      rewrite (bind_simple _ _ _ _ _ (simple_log _ _)).
      unfold getitem at 1. rewrite Hv, bind_ret, Hh.
      change ("hello" =? "hello")%string with true. cbv iota.
      unfold getitem. rewrite Hv1. cbn. discriminate.
  - eexists _, []. split; [| split; [| apply (process_other_packet E p packet v st); auto]];
      reflexivity.
Qed.

Lemma dict_get_set_eq {V} k (v : V) d : dict_get k (dict_set k v d) = Some v.
Proof.
  induction d as [| [k' v'] d IH]; cbn.
  - now rewrite Nat.eqb_refl.
  - destruct (k' =? k)%nat eqn:Hk; cbn.
    + now rewrite Nat.eqb_refl.
    + now rewrite Hk.
Qed.

Lemma dict_get_set_ne {V} k k' (v : V) d :
  k' <> k -> dict_get k' (dict_set k v d) = dict_get k' d.
Proof.
  intros Hne. induction d as [| [k0 v0] d IH]; cbn.
  - destruct (Nat.eqb_spec k k'); congruence.
  - destruct (Nat.eqb_spec k0 k) as [-> | Hk]; cbn.
    + destruct (Nat.eqb_spec k k'); congruence.
    + now rewrite IH.
Qed.

Lemma dict_set_keys {V} k (v : V) d :
  map fst (dict_set k v d) =
  if existsb (Nat.eqb k) (map fst d) then map fst d else map fst d ++ [k].
Proof.
  induction d as [| [k0 v0] d IH]; cbn; [reflexivity |].
  destruct (Nat.eqb_spec k0 k) as [-> | Hk]; cbn.
  - now rewrite Nat.eqb_refl.
  - destruct (Nat.eqb_spec k k0); [congruence |]. cbn. rewrite IH.
    now destruct (existsb (Nat.eqb k) (map fst d)).
Qed.

Lemma existsb_eqb_false k (l : list nat) :
  existsb (Nat.eqb k) l = false -> ~ In k l.
Proof.
  intros H Hin. assert (existsb (Nat.eqb k) l = true); [| congruence].
  apply existsb_exists. exists k. split; [exact Hin | apply Nat.eqb_refl].
Qed.

Lemma dict_set_nodup {V} k (v : V) d :
  NoDup (map fst d) -> NoDup (map fst (dict_set k v d)).
Proof.
  intros Hd. rewrite dict_set_keys.
  destruct (existsb (Nat.eqb k) (map fst d)) eqn:Hk; [exact Hd |].
  apply NoDup_ListNoDup. apply NoDup_ListNoDup in Hd.
  apply List.NoDup_app; [exact Hd | repeat constructor; intros [] |].
  intros x Hx [<- | []]. now apply existsb_eqb_false in Hk.
Qed.

Lemma emitted_after_arm {A} (m : M A) E p evs ks st :
  exec m st = after_arm E p (advance evs ks st) ->
  emitted m st =
  evs ++ [EvTimeoutAdd (REQUEST_TIMEOUT E * 1000) (CbClose p) (next_tid (loop st))].
Proof.
  intros H. unfold emitted. rewrite H. cbn. rewrite <- app_assoc.
  apply drop_app_length.
Qed.

(** C8: whatever request a [hello] packet carries (replied to, denied or
    unknown, [detach] included), the handler returns and, after the
    request was dispatched, arms a close timer for the instance: a fresh
    timer of [REQUEST_TIMEOUT] seconds, 10 by default, is added to the
    main loop and recorded under the instance. *)
Theorem hello_request_arms_close_timer E p caps rest st :
  let m := process_network_packet E p (VStr "hello" :: VDict caps :: rest) in
  let st' := exec m st in
  let tid := next_tid (loop st) in
  let ms := REQUEST_TIMEOUT E * 1000 in
  returns m st = true /\
  (exists evs ks,
     (forall request,
        strget E caps "request" = Some request -> str_truthy request = true ->
        simple (handle_hello_request E p request caps) evs ks) /\
     emitted m st =
       [EvLog Debug "process_network_packet: %s"; EvParseRemoteCaps p caps;
        EvEnableCompressor p caps; EvEnableEncoder p caps] ++ evs ++
       [EvTimeoutAdd ms (CbClose p) tid]) /\
  dict_get p (_close_timers st') = Some tid /\
  timers (loop st') = timers (loop st) ++ [(tid, (ms, CbClose p))] /\
  (environ_int E "XPRA_CLIENT_REQUEST_TIMEOUT" = None -> ms = 10000).
Proof.
  intros m st' tid ms.
  destruct (process_hello_packet E p (VStr "hello" :: VDict caps :: rest)
              (VStr "hello") (VDict caps) caps st)
    as (evs & ks & _ & _ & Hreq & Hrun); try reflexivity.
  fold m in Hrun.
  assert (Hexec : st' = after_arm E p
            (advance
               ([EvLog Debug "process_network_packet: %s"; EvParseRemoteCaps p caps;
                 EvEnableCompressor p caps; EvEnableEncoder p caps] ++ evs) ks st)).
  { subst st'. unfold exec. now rewrite Hrun. }
  split; [unfold returns; now rewrite Hrun |].
  split.
  { exists evs, ks. split; [exact Hreq |].
    rewrite (emitted_after_arm m E p _ ks st Hexec). now rewrite <- app_assoc. }
  rewrite Hexec. split; [apply dict_get_set_eq |].
  split; [reflexivity |].
  intros Henv. subst ms. unfold REQUEST_TIMEOUT, envint. now rewrite Henv.
Qed.

(** C2, as the code has it: arming records the new timer under the
    instance, so the map keeps one entry per instance, but a timer
    recorded earlier for the same instance is not cancelled: every timer
    that was live stays live and no [source_remove] is issued. *)
Theorem rearm_replaces_without_cancel E p packet v st :
  nth_error packet 0 = Some v ->
  py_str E v <> CONNECTION_LOST -> py_str E v <> GIBBERISH ->
  let m := process_network_packet E p packet in
  let st' := exec m st in
  let tid := next_tid (loop st) in
  returns m st = true ->
  NoDup (map fst (_close_timers st)) ->
  NoDup (map fst (_close_timers st')) /\
  dict_get p (_close_timers st') = Some tid /\
  (forall q, q <> p -> dict_get q (_close_timers st') = dict_get q (_close_timers st)) /\
  timers (loop st') =
    timers (loop st) ++ [(tid, (REQUEST_TIMEOUT E * 1000, CbClose p))] /\
  timers_cancelled (emitted m st) = [].
Proof.
  intros Hv H2 H3 m st' tid Hret Hnd.
  destruct (process_arming_packet E p packet v st Hv H2 H3 Hret)
    as (evs & ks & F1 & F2 & Hrun).
  fold m in Hrun.
  assert (Hexec : st' = after_arm E p (advance evs ks st)).
  { subst st'. unfold exec. now rewrite Hrun. }
  rewrite (emitted_after_arm m E p evs ks st Hexec), Hexec.
  split; [apply dict_set_nodup; exact Hnd |].
  split; [apply dict_get_set_eq |].
  split; [intros q Hq; now apply dict_get_set_ne |].
  split; [reflexivity |].
  clear - F1. induction evs as [| ev evs IH]; [reflexivity |].
  cbn in F1. apply andb_true_iff in F1 as [Hev F1].
  destruct ev; cbn in *; try discriminate; auto.
Qed.

Lemma rearm_replaces_without_cancel_witness :
  NoDup (map fst (_close_timers st_hello)) /\
  timers (loop (exec (process_network_packet env0 0%nat (hello_packet "version")) st_hello))
  = timers (loop st_hello) ++ [(2, (10000, CbClose 0%nat))].
Proof.
  assert (Hnd : NoDup (map fst (_close_timers st_hello))).
  { vm_compute. repeat constructor. intros H. inversion H. }
  split; [exact Hnd |].
  apply (rearm_replaces_without_cancel env0 0%nat (hello_packet "version")
           (VStr "hello") st_hello); try reflexivity; try discriminate.
  exact Hnd.
Defined.

(** C2, as stated, fails: protocol 0 sends two [hello] packets in a row;
    both timers are then live for it and nothing was cancelled. *)
Lemma two_hellos_two_live_timers :
  let st := steps env0 [InPacket 0%nat (hello_packet "version")] st_hello in
  live_close_timers 0%nat st = [1; 2] /\
  timers_cancelled (trace st) = [] /\
  ~ at_most_one_live_timer st.
Proof.
  intros st.
  assert (H : live_close_timers 0%nat st = [1; 2]) by (vm_compute; reflexivity).
  split; [exact H |]. split; [vm_compute; reflexivity |].
  intros Hinv. specialize (Hinv 0%nat). rewrite H in Hinv. cbn in Hinv. lia.
Qed.

Lemma list_remove_In x y l r :
  list_remove x l = Some r -> In y r -> In y l.
Proof.
  revert r. induction l as [| z l IH]; cbn; intros r Hr Hy; [discriminate |].
  destruct (z =? x)%nat.
  - injection Hr as <-. now right.
  - destruct (list_remove x l) as [r' |]; [| discriminate].
    injection Hr as <-. destruct Hy as [<- | Hy]; [now left | right; eauto].
Qed.

Lemma list_remove_None x l : list_remove x l = None -> ~ In x l.
Proof.
  induction l as [| z l IH]; cbn; intros Hr; [tauto |].
  destruct (Nat.eqb_spec z x); [discriminate |].
  destruct (list_remove x l); [discriminate |].
  intros [Hz | Hin]; [congruence | now apply IH].
Qed.

Lemma list_remove_NoDup x l r :
  NoDup l -> list_remove x l = Some r -> NoDup r /\ ~ In x r.
Proof.
  intros Hnd. revert r. induction Hnd as [| z l Hz Hnd IH]; cbn; intros r Hr;
    [discriminate |].
  destruct (Nat.eqb_spec z x) as [-> | Hne].
  - injection Hr as <-. split; [exact Hnd |]. now rewrite <- list_elem_of_In.
  - destruct (list_remove x l) as [r' |] eqn:Hrem; [| discriminate].
    injection Hr as <-. destruct (IH r' eq_refl) as [IH1 IH2]. split.
    + constructor; [| exact IH1].
      rewrite list_elem_of_In. intros Hin. apply Hz. rewrite list_elem_of_In.
      eapply list_remove_In; eauto.
    + intros [Heq | Hin]; [congruence | tauto].
Qed.

Lemma after_remove_not_in x l :
  NoDup l -> ~ In x (default l (list_remove x l)).
Proof.
  intros Hnd. destruct (list_remove x l) as [r |] eqn:Hr; cbn.
  - now apply (list_remove_NoDup x l r).
  - now apply list_remove_None.
Qed.

Lemma after_remove_NoDup x l : NoDup l -> NoDup (default l (list_remove x l)).
Proof.
  intros Hnd. destruct (list_remove x l) as [r |] eqn:Hr; cbn; [| exact Hnd].
  now apply (list_remove_NoDup x l r).
Qed.

Lemma dict_get_None_keys {V} k (d : list (nat * V)) :
  ~ In k (map fst d) -> dict_get k d = None.
Proof.
  induction d as [| [k' v'] d IH]; cbn; intros Hn; [reflexivity |].
  destruct (Nat.eqb_spec k' k); [tauto |]. apply IH. tauto.
Qed.

Lemma dict_del_keys_In {V} k k' (d : list (nat * V)) :
  In k' (map fst (dict_del k d)) -> In k' (map fst d).
Proof.
  induction d as [| [k0 v0] d IH]; cbn; [tauto |].
  destruct (k0 =? k)%nat; cbn; tauto.
Qed.

Lemma dict_del_nodup {V} k (d : list (nat * V)) :
  NoDup (map fst d) ->
  NoDup (map fst (dict_del k d)) /\ dict_get k (dict_del k d) = None.
Proof.
  induction d as [| [k0 v0] d IH]; cbn; intros Hnd; [split; [constructor | reflexivity] |].
  apply NoDup_cons in Hnd as [Hk0 Hnd]. rewrite list_elem_of_In in Hk0.
  destruct (Nat.eqb_spec k0 k) as [-> | Hne].
  - split; [exact Hnd | now apply dict_get_None_keys].
  - destruct (IH Hnd) as [IH1 IH2]. cbn. split.
    + constructor; [| exact IH1]. rewrite list_elem_of_In.
      intros Hin. apply Hk0. eapply dict_del_keys_In; eauto.
    + destruct (Nat.eqb_spec k0 k); [congruence | exact IH2].
Qed.

(** C4, as the code has it: a [connection-lost] or [gibberish] packet,
    first packet or not, makes the handler return normally with the
    instance out of the pending set and out of the close-timer map, and
    with nothing sent to the peer; [proto.close()] is called when a
    close timer was recorded for the instance and not otherwise. *)
Theorem closing_packet_evicts E p packet v st :
  nth_error packet 0 = Some v ->
  py_str E v = CONNECTION_LOST \/ py_str E v = GIBBERISH ->
  NoDup (_potential_protocols st) ->
  NoDup (map fst (_close_timers st)) ->
  let m := process_network_packet E p packet in
  let st' := exec m st in
  returns m st = true /\
  ~ In p (_potential_protocols st') /\
  dict_get p (_close_timers st') = None /\
  emitted m st =
    EvLog Debug "process_network_packet: %s" ::
    (if timer_recorded p st then [EvProtocolClose p] else []) /\
  List.filter is_send (emitted m st) = [] /\
  loop st' = loop st.
Proof.
  intros Hv Ht Hpp Hct m st'.
  pose proof (process_closing_packet E p packet v st Hv Ht) as Hrun.
  fold m in Hrun.
  assert (Hexec : st' = after_close p
            (advance [EvLog Debug "process_network_packet: %s"] [] st)).
  { subst st'. unfold exec. now rewrite Hrun. }
  assert (Hem : emitted m st =
                EvLog Debug "process_network_packet: %s" ::
                (if timer_recorded p st then [EvProtocolClose p] else [])).
  { unfold emitted. fold st'. rewrite Hexec. cbn.
    rewrite <- app_assoc. apply drop_app_length. }
  split; [unfold returns; now rewrite Hrun |].
  split; [rewrite Hexec; cbn; now apply after_remove_not_in |].
  split; [rewrite Hexec; cbn; now apply dict_del_nodup |].
  split; [exact Hem |].
  split; [rewrite Hem; now destruct (timer_recorded p st) |].
  rewrite Hexec. cbn. destruct (loop st) as [ts nt idl]. cbn.
  now rewrite app_nil_r.
Qed.

Lemma closing_packet_evicts_witness :
  NoDup (_potential_protocols st_hello) /\
  NoDup (map fst (_close_timers st_hello)) /\
  ~ In 0%nat (_potential_protocols
                (exec (process_network_packet env0 0%nat [VStr "gibberish"]) st_hello)).
Proof.
  assert (H1 : NoDup (_potential_protocols st_hello)).
  { vm_compute. repeat constructor. intros H. inversion H. }
  assert (H2 : NoDup (map fst (_close_timers st_hello))).
  { vm_compute. repeat constructor. intros H. inversion H. }
  split; [exact H1 |]. split; [exact H2 |].
  apply (closing_packet_evicts env0 0%nat [VStr "gibberish"] (VStr "gibberish") st_hello);
    auto.
Defined.

(** C4, as stated, fails: when [gibberish] is the very first packet of
    protocol 0 no close timer is recorded yet, and the handler leaves
    the protocol unclosed (its connection is not released). *)
Lemma first_packet_gibberish_not_closed :
  let st := steps env0 [InPacket 0%nat [VStr "gibberish"]] st_accepted in
  In (EvProtocolStart 0%nat) (trace st) /\
  protocol_closes (trace st) = [] /\
  ~ In (EvProtocolClose 0%nat) (trace st).
Proof.
  intros st. split; [vm_compute; tauto |]. split; [vm_compute; reflexivity |].
  vm_compute. intuition discriminate.
Qed.

(** C10: once [exit_code] is set, the new-connection callback returns
    [False] after two debug lines: nothing is accepted, no protocol is
    set up and the client's state, the pending set included, is as
    before. *)
Theorem new_connection_ignored_during_shutdown E socktype l handle accepted code st :
  exit_code st = Some code ->
  let m := _new_connection E socktype l handle accepted in
  fst (m st) = Ok false /\
  emitted m st =
    [EvLog Debug "_new_connection%s";
     EvLog Debug "ignoring new connection during shutdown"] /\
  List.filter (fun ev => is_accept ev || is_setup ev) (emitted m st) = [] /\
  _potential_protocols (exec m st) = _potential_protocols st /\
  exec m st = set_trace (trace st ++ emitted m st) st.
Proof.
  intros Hec m.
  assert (Hrun : m st =
            (Ok false,
             advance [EvLog Debug "_new_connection%s";
                      EvLog Debug "ignoring new connection during shutdown"] [] st)).
  { subst m. unfold _new_connection.
    rewrite (bind_simple _ _ _ _ _ (simple_log _ _)).
    rewrite bind_gets.
    change (exit_code (advance [EvLog Debug "_new_connection%s"] [] st))
      with (exit_code st).
    rewrite Hec.
    rewrite (bind_simple _ _ _ _ _ (simple_log _ _)).
    unfold ret. now rewrite advance_advance. }
  assert (Hem : emitted m st =
            [EvLog Debug "_new_connection%s";
             EvLog Debug "ignoring new connection during shutdown"]).
  { eapply emitted_advance. unfold exec. rewrite Hrun. reflexivity. }
  rewrite Hem. unfold exec. rewrite Hrun. cbn [fst snd].
  repeat split.
  unfold advance. destruct st as [? ? ? ? ? ? ? ? [? ? ?] ?]; cbn.
  now rewrite app_nil_r.
Qed.

Lemma new_connection_ignored_during_shutdown_witness :
  exit_code st_exiting = Some 0 /\
  fst (_new_connection env0 "tcp" 7%nat 0 (Some 101%nat) st_exiting) = Ok false.
Proof.
  split; [reflexivity |].
  apply (new_connection_ignored_during_shutdown env0 "tcp" 7%nat 0 (Some 101%nat) 0
           st_exiting).
  reflexivity.
Defined.

(** ** Teardown *)

Lemma simple_trapped_call E msg c :
  simple (trap_error msg (call E c)) (trapped_call E msg c) [].
Proof.
  intros st. unfold trap_error, try_except, call, trapped_call.
  rewrite (bind_simple _ _ _ _ _ (simple_emit _)).
  destruct (call_cleanup E c); cbn [ret raise].
  - reflexivity.
  - unfold raise. rewrite simple_log. now rewrite advance_advance.
Qed.

Lemma for_each_simple {A} (l : list A) (body : A -> M unit) (f : A -> list event) :
  (forall x, simple (body x) (f x) []) ->
  simple (for_each l body) (flat_map f l) [].
Proof.
  intros Hb. induction l as [| x l IH]; cbn [for_each flat_map].
  - apply simple_ret.
  - change (@nil task) with (@nil task ++ []). apply simple_bind; auto.
Qed.

Lemma for_each_timers ct st :
  for_each ct (fun pt => source_remove (snd pt) ;; proto_close (fst pt)) st =
  (Ok tt,
   set_trace (trace st ++ timer_teardown ct)
     (set_loop (cancel_all (map snd ct) (loop st)) st)).
Proof.
  revert st. induction ct as [| [p t] ct IH]; intros st.
  - cbn. unfold ret. destruct st; cbn. now rewrite app_nil_r.
  - cbn [for_each]. unfold bind at 1. unfold bind at 1.
    unfold source_remove. rewrite bind_modify.
    rewrite simple_emit. rewrite simple_proto_close. rewrite advance_advance.
    rewrite IH. cbn. f_equal. destruct st as [? ? ? ? ? ? ? ? [? ? ?] ?]; cbn.
    unfold cancel_all. cbn. rewrite !app_nil_r. rewrite <- !app_assoc. reflexivity.
Qed.

Lemma cleanup_sockets_run E st :
  cleanup_sockets E st = (Ok tt, after_cleanup E st).
Proof.
  unfold cleanup_sockets. rewrite bind_gets, bind_modify.
  unfold bind at 1. rewrite for_each_timers.
  rewrite bind_gets.
  rewrite (bind_simple _ _ _ _ _ (simple_log _ _)).
  rewrite bind_modify.
  rewrite (bind_simple _ _ _ _ _
             (for_each_simple _ _ _
                (simple_trapped_call E "Error during socket listener cleanup %s"))).
  rewrite bind_gets, bind_modify.
  rewrite (bind_simple _ _ _ _ _ (simple_log _ _)).
  rewrite (for_each_simple _ _
             (fun so => trapped_call E "Error during socket cleanup %s" (sd_cleanup (fst so)))).
  - unfold after_cleanup, cleanup_trace, advance.
    destruct st as [? ? ? ? ? ? ? ? [? ? ?] ?]; cbn.
    rewrite ?app_nil_r, <- ?app_assoc.
    match goal with
    | |- context [fold_left ?f ?l ?a] => destruct (fold_left f l a)
    end.
    cbn. rewrite ?app_nil_r. reflexivity.
  - intros so. apply simple_trapped_call.
Qed.

Lemma cleanup_calls_app a b :
  cleanup_calls (a ++ b) = cleanup_calls a ++ cleanup_calls b.
Proof.
  induction a as [| ev a IH]; [reflexivity |].
  destruct ev; cbn; rewrite IH; reflexivity.
Qed.

Lemma cleanup_calls_timer_teardown ct : cleanup_calls (timer_teardown ct) = [].
Proof. induction ct as [| [p t] ct IH]; cbn; auto. Qed.

Lemma cleanup_calls_trapped {A} E msg (g : A -> nat) l :
  cleanup_calls (flat_map (fun x => trapped_call E msg (g x)) l) = map g l.
Proof.
  induction l as [| x l IH]; [reflexivity |].
  cbn [flat_map map]. rewrite cleanup_calls_app, IH.
  unfold trapped_call. now destruct (call_cleanup E (g x)).
Qed.

Lemma cleanup_calls_cleanup_trace E st :
  cleanup_calls (cleanup_trace E st) =
  socket_cleanup st ++ map (fun so => sd_cleanup (fst so)) (sockets st).
Proof.
  unfold cleanup_trace.
  rewrite !cleanup_calls_app, cleanup_calls_timer_teardown.
  rewrite (cleanup_calls_trapped E _ (fun c => c)), map_id.
  rewrite (cleanup_calls_trapped E _ (fun so => sd_cleanup (fst so))).
  reflexivity.
Qed.

(** C9, as the code has it: teardown returns normally and calls every
    registered listener cleanup exactly once, in the order of
    registration (then the cleanup of every socket definition, in dict
    order); a cleanup that raises is followed by an error line and the
    next one is still called.  The registry, the socket dict and the
    timer map are emptied first, so a second teardown calls no cleanup,
    closes nothing and cancels nothing. *)
Theorem teardown_runs_cleanups_in_registration_order E st :
  let m := cleanup_sockets E in
  let st' := exec m st in
  returns m st = true /\
  emitted m st = cleanup_trace E st /\
  cleanup_calls (emitted m st) =
    socket_cleanup st ++ map (fun so => sd_cleanup (fst so)) (sockets st) /\
  (socket_cleanup st' = [] /\ sockets st' = [] /\ _close_timers st' = []) /\
  returns m st' = true /\
  emitted m st' =
    [EvLog Debug "cleanup_sockets() socket_cleanup=%s";
     EvLog Debug "cleanup_sockets() sockets=%s"].
Proof.
  intros m st'.
  assert (Hem : forall s, emitted m s = cleanup_trace E s).
  { intros s. unfold emitted, exec, m. rewrite cleanup_sockets_run. cbn.
    apply drop_app_length. }
  assert (Hst : st' = after_cleanup E st).
  { unfold st', exec, m. now rewrite cleanup_sockets_run. }
  split; [unfold returns, m; now rewrite cleanup_sockets_run |].
  split; [apply Hem |].
  split; [rewrite Hem; apply cleanup_calls_cleanup_trace |].
  split; [rewrite Hst; repeat split |].
  split; [unfold returns, m; now rewrite cleanup_sockets_run |].
  rewrite Hem, Hst. reflexivity.
Qed.

(** C9, as stated, fails: three listeners registered their cleanups in
    the order 1, 2, 3; teardown calls them in that order (the second one
    raises and the third is still called), not in the reverse order. *)
Lemma teardown_order_not_reversed :
  let calls := cleanup_calls (emitted (cleanup_sockets env0) st_listening) in
  socket_cleanup st_listening = [1; 2; 3]%nat /\
  take 3 calls = [1; 2; 3]%nat /\
  take 3 calls <> rev (socket_cleanup st_listening).
Proof.
  intros calls.
  assert (H : take 3 calls = [1; 2; 3]%nat) by (vm_compute; reflexivity).
  split; [vm_compute; reflexivity |]. split; [exact H |].
  rewrite H. vm_compute. discriminate.
Qed.

(** ** Admission *)

Lemma make_protocol_run socktype c l st :
  make_protocol socktype c l st = (Ok tt, after_make_protocol socktype c st).
Proof.
  unfold make_protocol, after_make_protocol, new_object.
  unfold bind, emit, modify. cbn.
  destruct st; cbn. rewrite <- !app_assoc. reflexivity.
Qed.

Lemma trap_error_ok msg (m : M unit) st st' :
  m st = (Ok tt, st') -> trap_error msg m st = (Ok tt, st').
Proof. intros H. unfold trap_error, try_except. now rewrite H. Qed.

Lemma trap_error_raise msg (m : M unit) e st st' :
  m st = (Raise e, st') ->
  trap_error msg m st = (Ok tt, advance [EvLog Error msg] [] st').
Proof.
  intros H. unfold trap_error, try_except. rewrite H. apply simple_log.
Qed.

Lemma handle_new_connection_run E socktype l handle accepted st :
  exit_code st = None ->
  trap_error "Error handling new {socktype} connection"
    (handle_new_connection E socktype l handle accepted)
    (advance [EvLog Debug "_new_connection%s"] [] st) =
  (Ok tt, after_new_connection E socktype l handle accepted st).
Proof.
  intros Hec. unfold after_new_connection. rewrite Hec.
  destruct (str_truthy socktype) eqn:Hs; cbn [negb].
  - apply trap_error_ok. unfold handle_new_connection. rewrite Hs.
    rewrite bind_ret, bind_gets.
    destruct (socktype =? "named-pipe")%string.
    + unfold bind at 1, new_object at 1.
      rewrite (bind_simple _ _ _ _ _ (simple_emit _)).
      rewrite (bind_simple _ _ _ _ _ (simple_log _ _)).
      rewrite make_protocol_run. f_equal.
      unfold after_make_protocol, advance.
      destruct st as [? ? ? ? ? ? ? ? [? ? ?] ?]; cbn.
      rewrite ?app_nil_r, <- ?app_assoc. reflexivity.
    + rewrite (bind_simple _ _ _ _ _ (simple_emit _)).
      destruct accepted as [c |].
      * rewrite bind_gets.
        change (_potential_protocols (advance ?a ?b (advance ?a' ?b' st)))
          with (_potential_protocols st).
        destruct (Z.of_nat (length (_potential_protocols st)) >=?
                  MAX_CONCURRENT_CONNECTIONS E)%Z.
        -- rewrite (bind_simple _ _ _ _ _ (simple_log _ _)).
           rewrite (bind_simple _ _ _ _ _ (simple_log _ _)).
           rewrite simple_emit. now rewrite !advance_advance.
        -- rewrite (bind_simple _ _ _ _ _ (simple_log _ _)).
           rewrite (bind_simple _ _ _ _ _ (simple_emit _)).
           rewrite make_protocol_run. now rewrite !advance_advance.
      * unfold ret. now rewrite !advance_advance.
  - erewrite trap_error_raise; [reflexivity |].
    unfold handle_new_connection. rewrite Hs. reflexivity.
Qed.

Lemma _new_connection_run E socktype l handle accepted st :
  _new_connection E socktype l handle accepted st =
  (Ok (match exit_code st with None => true | Some _ => false end),
   after_new_connection E socktype l handle accepted st).
Proof.
  unfold _new_connection.
  rewrite (bind_simple _ _ _ _ _ (simple_log _ _)), bind_gets.
  change (exit_code (advance [EvLog Debug "_new_connection%s"] [] st))
    with (exit_code st).
  destruct (exit_code st) as [code |] eqn:Hec.
  - rewrite (bind_simple _ _ _ _ _ (simple_log _ _)).
    unfold after_new_connection. rewrite Hec. reflexivity.
  - unfold bind at 1. rewrite (handle_new_connection_run E _ _ _ _ st Hec).
    rewrite bind_gets.
    assert (Hk : exit_code (after_new_connection E socktype l handle accepted st) = None).
    { unfold after_new_connection. rewrite Hec.
      repeat match goal with
             | |- context [if ?c then _ else _] => destruct c
             | |- context [match ?o with Some _ => _ | None => _ end] => destruct o
             end; exact Hec. }
    rewrite Hk. reflexivity.
Qed.

(** A connection accepted from a socket while the pending set is at the
    bound is closed at once: nothing is set up for it, nothing is sent,
    and the client's state is as before but for the trace. *)
Lemma accepted_connection_refused_at_bound E socktype l handle c st :
  exit_code st = None ->
  str_truthy socktype = true ->
  (socktype =? "named-pipe")%string = false ->
  (Z.of_nat (length (_potential_protocols st)) >= MAX_CONCURRENT_CONNECTIONS E)%Z ->
  let m := _new_connection E socktype l handle (Some c) in
  emitted m st =
    [EvLog Debug "_new_connection%s"; EvAccept socktype l;
     EvLog Error "Error: too many connections (%i)";
     EvLog Error " ignoring new one: %s"; EvConnClose c] /\
  exec m st = set_trace (trace st ++ emitted m st) st.
Proof.
  intros Hec Hs Hnp Hfull m.
  assert (Hst : exec m st =
            advance [EvLog Debug "_new_connection%s"; EvAccept socktype l;
                     EvLog Error "Error: too many connections (%i)";
                     EvLog Error " ignoring new one: %s"; EvConnClose c] [] st).
  { unfold exec, m. rewrite _new_connection_run. cbn [snd].
    unfold after_new_connection. rewrite Hec, Hs, Hnp. cbn [negb].
    assert (Hge : (Z.of_nat (length (_potential_protocols st)) >=?
                   MAX_CONCURRENT_CONNECTIONS E)%Z = true)
      by (apply Z.geb_le; lia).
    rewrite Hge. now rewrite advance_advance. }
  rewrite (emitted_advance m _ _ st Hst). split; [reflexivity |].
  rewrite Hst. unfold advance.
  destruct st as [? ? ? ? ? ? ? ? [? ? ?] ?]; cbn. now rewrite app_nil_r.
Qed.

Lemma accepted_connection_refused_at_bound_witness :
  (Z.of_nat (length (_potential_protocols st_full)) >= MAX_CONCURRENT_CONNECTIONS env0)%Z /\
  _potential_protocols
    (exec (_new_connection env0 "tcp" 7%nat 0 (Some 105%nat)) st_full)
  = _potential_protocols st_full.
Proof.
  assert (Hfull : (Z.of_nat (length (_potential_protocols st_full)) >=
                   MAX_CONCURRENT_CONNECTIONS env0)%Z)
    by (vm_compute; discriminate).
  assert (Hec : exit_code st_full = None) by (vm_compute; reflexivity).
  split; [exact Hfull |].
  destruct (accepted_connection_refused_at_bound env0 "tcp" 7%nat 0 105%nat st_full
              Hec eq_refl eq_refl Hfull) as [_ H].
  rewrite H. reflexivity.
Defined.

(** C1 fails on the named-pipe path: with the pending set at (or over)
    the bound, a named-pipe connection is still wrapped in a protocol,
    appended to the pending set and started; it is not closed, and the
    pending set ends up over the bound. *)
Theorem named_pipe_connection_skips_admission E l handle accepted st :
  exit_code st = None ->
  (Z.of_nat (length (_potential_protocols st)) >= MAX_CONCURRENT_CONNECTIONS E)%Z ->
  let m := _new_connection E "named-pipe" l handle accepted in
  let st' := exec m st in
  let c := next_object st in
  let p := S (next_object st) in
  emitted m st =
    [EvLog Debug "_new_connection%s"; EvNamedPipeConnection l handle c;
     EvLog Info "New %s connection received on %s";
     EvProtocolNew p c; EvProtocolSetAttr p "socket_type" (VStr "named-pipe");
     EvProtocolSetAttr p "authenticators" (VTuple []); EvProtocolStart p] /\
  _potential_protocols st' = _potential_protocols st ++ [p] /\
  (Z.of_nat (length (_potential_protocols st')) > MAX_CONCURRENT_CONNECTIONS E)%Z.
Proof.
  intros Hec Hfull m st' c p.
  assert (Hst : st' = after_new_connection E "named-pipe" l handle accepted st).
  { unfold st', exec, m. now rewrite _new_connection_run. }
  assert (Hpp : _potential_protocols st' = _potential_protocols st ++ [p]).
  { rewrite Hst. unfold after_new_connection. rewrite Hec. reflexivity. }
  split.
  - unfold emitted. fold st'. rewrite Hst. unfold after_new_connection.
    rewrite Hec. cbn. rewrite <- !app_assoc. apply drop_app_length.
  - split; [exact Hpp |]. rewrite Hpp, length_app. cbn [length]. lia.
Qed.

Lemma named_pipe_connection_skips_admission_witness :
  exit_code st_full = None /\
  (Z.of_nat (length (_potential_protocols st_full)) >= MAX_CONCURRENT_CONNECTIONS env0)%Z /\
  length (_potential_protocols
            (exec (_new_connection env0 "named-pipe" 9%nat 3 None) st_full)) = 6%nat.
Proof.
  assert (Hfull : (Z.of_nat (length (_potential_protocols st_full)) >=
                   MAX_CONCURRENT_CONNECTIONS env0)%Z)
    by (vm_compute; discriminate).
  assert (Hec : exit_code st_full = None) by (vm_compute; reflexivity).
  split; [exact Hec |]. split; [exact Hfull |].
  destruct (named_pipe_connection_skips_admission env0 9%nat 3 None st_full Hec Hfull)
    as (_ & H & _).
  rewrite H. vm_compute. reflexivity.
Defined.

(** [close()] never touches the main loop, whatever the state. *)
Lemma close_keeps_timers p st :
  loop (exec (close p) st) = loop st /\ timers_cancelled (emitted (close p) st) = [].
Proof.
  unfold emitted, exec. rewrite close_run. cbn. split; [reflexivity |].
  rewrite drop_app_length. now destruct (timer_recorded p st).
Qed.

(** [cleanup_sockets] never touches the pending set, whatever the state. *)
Lemma cleanup_keeps_pending E st :
  _potential_protocols (exec (cleanup_sockets E) st) = _potential_protocols st.
Proof. unfold exec. now rewrite cleanup_sockets_run. Qed.

(** C3 fails on two paths: [close()] never cancels a timer on the main
    loop, and [cleanup_sockets] never removes anything from the pending
    set.  Concretely, protocol 0 has timer 1 armed by a [hello]; when
    [connection-lost] then arrives, [close()] closes the protocol and
    evicts it but issues no [source_remove], so timer 1 stays live for
    it; when instead the subsystem is cleaned up, the timer is cancelled
    and the protocol closed but it stays in the pending set. *)
Theorem close_paths_clean_up_partially :
  (forall p st,
     loop (exec (close p) st) = loop st /\
     timers_cancelled (emitted (close p) st) = []) /\
  (forall E st,
     _potential_protocols (exec (cleanup_sockets E) st) = _potential_protocols st) /\
  let lost := steps env0 [InPacket 0%nat [VStr "connection-lost"]] st_hello in
  let torn := steps env0 [InCleanup] st_hello in
  (live_close_timers 0%nat st_hello = [1] /\ _potential_protocols st_hello = [0%nat]) /\
  (protocol_closes (drop (length (trace st_hello)) (trace lost)) = [0%nat] /\
   _potential_protocols lost = [] /\
   timers_cancelled (trace lost) = [] /\
   live_close_timers 0%nat lost = [1]) /\
  (protocol_closes (drop (length (trace st_hello)) (trace torn)) = [0%nat] /\
   timers_cancelled (trace torn) = [1] /\
   live_close_timers 0%nat torn = [] /\
   _potential_protocols torn = [0%nat]).
Proof.
  split; [exact close_keeps_timers |].
  split; [exact cleanup_keeps_pending |].
  vm_compute. repeat split.
Qed.

(** ** Invariants of the reachable states *)

Section Keeps.
Variable P : client -> Prop.
Hypothesis HP : book_only P.

Lemma keeps_ret {A} (a : A) : keeps P (ret a).
Proof. intros st H. exact H. Qed.

Lemma keeps_raise {A} e : keeps P (@raise A e).
Proof. intros st H. exact H. Qed.

Lemma keeps_gets {A} (g : client -> A) : keeps P (gets g).
Proof. intros st H. exact H. Qed.

Lemma keeps_bind {A B} (m : M A) (f : A -> M B) :
  keeps P m -> (forall a, keeps P (f a)) -> keeps P (bind m f).
Proof.
  intros Hm Hf st H. specialize (Hm st H). unfold exec, bind in *.
  destruct (m st) as [[a | e] st1]; cbn in *; [now apply Hf | exact Hm].
Qed.

Lemma keeps_try_except {A} (m : M A) handled h :
  keeps P m -> (forall e, keeps P (h e)) -> keeps P (try_except m handled h).
Proof.
  intros Hm Hh st H. specialize (Hm st H). unfold exec, try_except in *.
  destruct (m st) as [[a | e] st1]; cbn in *; [exact Hm |].
  destruct (handled e); [now apply Hh | exact Hm].
Qed.

Lemma keeps_for_each {A} (l : list A) body :
  (forall x, keeps P (body x)) -> keeps P (for_each l body).
Proof.
  intros Hb. induction l as [| x l IH]; cbn [for_each].
  - apply keeps_ret.
  - apply keeps_bind; auto.
Qed.

Lemma keeps_modify g : (forall st, book (g st) = book st) -> keeps P (modify g).
Proof.
  intros Hg st H. unfold exec, modify; cbn. apply (HP st); [apply Hg | exact H].
Qed.

Lemma keeps_emit ev : keeps P (emit ev).
Proof. apply keeps_modify. reflexivity. Qed.

Lemma keeps_simple m evs ks : simple m evs ks -> keeps P m.
Proof.
  intros Hs st H. rewrite (simple_exec m evs ks st Hs).
  apply (HP st); [reflexivity | exact H].
Qed.

Lemma keeps_trap_error msg m : keeps P m -> keeps P (trap_error msg m).
Proof.
  intros Hm. apply keeps_try_except; [exact Hm |].
  intros e. apply keeps_emit.
Qed.

Lemma keeps_handle_hello_request E p request caps :
  keeps P (handle_hello_request E p request caps).
Proof.
  destruct (handle_hello_request_simple E p request caps) as (evs & ks & Hs & _).
  eapply keeps_simple, Hs.
Qed.

Lemma keeps_run_task E k : keeps P (run_task E k).
Proof.
  destruct k as [socktype sock options | p | p command | name]; cbn [run_task].
  - unfold add_listen_socket. apply keeps_bind; [apply keeps_emit |].
    intros _. destruct (socket_util_add_listen_socket E socktype sock).
    + apply keeps_modify. reflexivity.
    + apply keeps_ret.
  - unfold send_info. eapply keeps_simple, simple_hello_reply.
  - intros st H. unfold exec. rewrite process_control_run.
    apply (HP st); [reflexivity | exact H].
  - apply keeps_emit.
Qed.

Lemma keeps_run_idle E : keeps P (run_idle E).
Proof.
  unfold run_idle. apply keeps_bind; [apply keeps_gets |].
  intros [| k q]; [apply keeps_ret |].
  apply keeps_bind; [apply keeps_modify; reflexivity |].
  intros _. apply keeps_run_task.
Qed.

Lemma keeps_start_listen_sockets : keeps P start_listen_sockets.
Proof.
  unfold start_listen_sockets. apply keeps_bind; [apply keeps_gets |].
  intros socks. apply keeps_for_each. intros so.
  apply keeps_bind; [apply keeps_emit | intros _].
  apply keeps_bind; [apply keeps_modify; reflexivity | intros _].
  apply keeps_bind; [apply keeps_modify; reflexivity | intros _].
  eapply keeps_simple, simple_idle_add.
Qed.

(** Whatever the packet, [process_network_packet] keeps what [close()]
    and the arming of the close timer keep, also when it raises. *)
Lemma keeps_process_network_packet E p packet :
  keeps P (close p) -> keeps P (arm_close_timer E p) ->
  keeps P (process_network_packet E p packet).
Proof.
  intros Hclose Harm. unfold process_network_packet.
  apply keeps_bind; [apply keeps_emit | intros _].
  apply keeps_bind.
  { unfold getitem. destruct (nth_error packet 0); [apply keeps_ret | apply keeps_raise]. }
  intros v. destruct (py_str E v =? "hello")%string.
  - apply keeps_bind.
    { unfold getitem. destruct (nth_error packet 1); [apply keeps_ret | apply keeps_raise]. }
    intros v1. apply keeps_bind; [intros st H; exact H | intros caps].
    do 3 (apply keeps_bind; [apply keeps_emit | intros _]).
    apply keeps_bind; [| intros _; exact Harm].
    destruct (strget E caps "request") as [r |]; [| apply keeps_ret].
    destruct (str_truthy r); [apply keeps_handle_hello_request | apply keeps_ret].
  - destruct ((py_str E v =? CONNECTION_LOST)%string || (py_str E v =? GIBBERISH)%string).
    + exact Hclose.
    + do 2 (apply keeps_bind; [apply keeps_emit | intros _]). exact Harm.
Qed.

Lemma keeps_fire_timer E t :
  (forall p, keeps P (close p)) -> keeps P (fire_timer E t).
Proof.
  intros Hclose. unfold fire_timer. apply keeps_bind; [apply keeps_gets |].
  intros [cb |]; [| apply keeps_ret].
  apply keeps_bind; [| intros _; apply keeps_modify; reflexivity].
  destruct cb; cbn [run_callback]; [apply Hclose | apply keeps_emit].
Qed.

End Keeps.

Lemma book_only_wf : book_only wf.
Proof.
  intros st st' Hb [H1 H2 H3 H4 H5]. unfold book in Hb.
  injection Hb as Hpp Hno Hct Hnt.
  constructor; rewrite ?Hpp, ?Hno, ?Hct, ?Hnt; assumption.
Qed.

Lemma book_only_bounded E : book_only (bounded E).
Proof.
  intros st st' Hb H. unfold book in Hb. injection Hb as Hpp _ _ _.
  unfold bounded. now rewrite Hpp.
Qed.

Lemma after_remove_Forall (Q : nat -> Prop) x l :
  Forall Q l -> Forall Q (default l (list_remove x l)).
Proof.
  intros H. destruct (list_remove x l) as [r |] eqn:Hr; cbn; [| exact H].
  rewrite Forall_forall in *. intros y Hy. apply H.
  rewrite list_elem_of_In in *. eapply list_remove_In; eauto.
Qed.

Lemma after_remove_length x l :
  (length (default l (list_remove x l)) <= length l)%nat.
Proof.
  destruct (list_remove x l) as [r |] eqn:Hr; cbn; [| lia].
  revert r Hr. induction l as [| y l IH]; cbn; intros r Hr; [discriminate |].
  destruct (y =? x)%nat.
  - injection Hr as <-. lia.
  - destruct (list_remove x l) as [r' |]; [| discriminate].
    injection Hr as <-. cbn. specialize (IH r' eq_refl). lia.
Qed.

Lemma dict_del_In {V} k (e : nat * V) d : In e (dict_del k d) -> In e d.
Proof.
  induction d as [| [k0 v0] d IH]; cbn; [tauto |].
  destruct (k0 =? k)%nat; cbn; tauto.
Qed.

Lemma dict_set_In {V} k (v : V) e d : In e (dict_set k v d) -> e = (k, v) \/ In e d.
Proof.
  induction d as [| [k0 v0] d IH]; cbn.
  - intros [<- | []]. now left.
  - destruct (k0 =? k)%nat; cbn.
    + intros [<- | H]; [now left | right; now right].
    + intros [<- | H]; [right; now left |].
      destruct (IH H) as [-> | H']; [now left | right; now right].
Qed.

Lemma wf_close p : keeps wf (close p).
Proof.
  intros st [H1 H2 H3 H4 H5]. unfold exec. rewrite close_run.
  constructor; cbn.
  - now apply after_remove_NoDup.
  - now apply after_remove_Forall.
  - now apply dict_del_nodup.
  - rewrite Forall_forall in *. intros e He. apply H4.
    rewrite list_elem_of_In in *. eapply dict_del_In; eauto.
  - exact H5.
Qed.

Lemma wf_arm E p : keeps wf (arm_close_timer E p).
Proof.
  intros st [H1 H2 H3 H4 H5]. unfold exec. rewrite arm_close_timer_run.
  constructor; cbn.
  - exact H1.
  - exact H2.
  - now apply dict_set_nodup.
  - rewrite Forall_forall in *. intros e He. rewrite list_elem_of_In in He.
    apply dict_set_In in He as [-> | He]; cbn; [lia |].
    rewrite <- list_elem_of_In in He. specialize (H4 e He). cbn in H4. lia.
  - lia.
Qed.

Lemma cancel_all_next_tid ts l : next_tid (cancel_all ts l) = next_tid l.
Proof.
  revert l. induction ts as [| t ts IH]; intros l; cbn; [reflexivity |].
  unfold cancel_all in IH. now rewrite IH.
Qed.

Lemma wf_cleanup E : keeps wf (cleanup_sockets E).
Proof.
  intros st [H1 H2 H3 H4 H5]. unfold exec. rewrite cleanup_sockets_run.
  constructor; cbn; rewrite ?cancel_all_next_tid; auto; constructor.
Qed.

Lemma wf_make_protocol socktype c st :
  wf st -> wf (after_make_protocol socktype c st).
Proof.
  intros [H1 H2 H3 H4 H5]. constructor; cbn; auto.
  - apply NoDup_app. split; [exact H1 |]. split; [| apply NoDup_singleton].
    intros x Hx Hx'. apply list_elem_of_singleton in Hx'. subst x.
    rewrite Forall_forall in H2. specialize (H2 _ Hx). lia.
  - apply Forall_app. split.
    + eapply Forall_impl; [exact H2 |]. cbn. intros; lia.
    + repeat constructor.
Qed.

Lemma wf_new_connection E socktype l handle accepted st :
  wf st -> wf (after_new_connection E socktype l handle accepted st).
Proof.
  intros H. unfold after_new_connection.
  assert (Hadv : forall evs ks s, wf s -> wf (advance evs ks s)).
  { intros evs ks s. apply book_only_wf. reflexivity. }
  destruct (exit_code st); [repeat apply Hadv; exact H |].
  destruct (negb (str_truthy socktype)); [repeat apply Hadv; exact H |].
  destruct (socktype =? "named-pipe")%string.
  - apply wf_make_protocol, Hadv.
    destruct H as [H1 H2 H3 H4 H5]. constructor; cbn; auto.
    eapply Forall_impl; [exact H2 |]. cbn. intros; lia.
  - destruct accepted as [c |]; [| repeat apply Hadv; exact H].
    destruct (Z.of_nat (length (_potential_protocols st)) >=?
              MAX_CONCURRENT_CONNECTIONS E)%Z; [repeat apply Hadv; exact H |].
    apply wf_make_protocol. repeat apply Hadv. exact H.
Qed.

Lemma wf_init : wf init_client.
Proof. constructor; cbn; try constructor; lia. Qed.

(** Every state the loop can reach keeps the bookkeeping well formed:
    no protocol is pending twice, the timer map has one entry per
    protocol, and every recorded timer id is positive (so that the
    test [if t:] of [close()] succeeds exactly when a timer is
    recorded). *)
Theorem reachable_wf E st : reachable E st -> wf st.
Proof.
  induction 1 as [| i st Hr IH]; [apply wf_init |].
  destruct i as [socktype l handle accepted | p packet | t | | |]; cbn [step].
  - unfold exec. rewrite _new_connection_run. now apply wf_new_connection.
  - apply (keeps_process_network_packet wf book_only_wf);
      auto using wf_close, wf_arm.
  - apply (keeps_fire_timer wf book_only_wf E); auto using wf_close.
  - now apply (keeps_run_idle wf book_only_wf).
  - now apply (keeps_start_listen_sockets wf book_only_wf).
  - now apply wf_cleanup.
Qed.

Lemma bounded_close E p : keeps (bounded E) (close p).
Proof.
  intros st H. unfold exec. rewrite close_run. unfold bounded in *. cbn.
  pose proof (after_remove_length p (_potential_protocols st)). lia.
Qed.

Lemma bounded_arm E p : keeps (bounded E) (arm_close_timer E p).
Proof. intros st H. exact H. Qed.

Lemma bounded_step E i st :
  not_named_pipe i = true -> bounded E st -> bounded E (step E i st).
Proof.
  intros Hi H.
  destruct i as [socktype l handle accepted | p packet | t | | |]; cbn [step].
  - cbn in Hi. apply negb_true_iff in Hi.
    unfold exec. rewrite _new_connection_run. cbn [snd].
    unfold after_new_connection. rewrite Hi.
    destruct (exit_code st); [exact H |].
    destruct (negb (str_truthy socktype)); [exact H |].
    destruct accepted as [c |]; [| exact H].
    destruct (Z.geb_spec (Z.of_nat (length (_potential_protocols st)))
                (MAX_CONCURRENT_CONNECTIONS E)) as [Hge | Hlt]; [exact H |].
    unfold bounded in *. cbn. rewrite length_app. cbn [length]. lia.
  - apply (keeps_process_network_packet (bounded E) (book_only_bounded E));
      auto using bounded_close, bounded_arm.
  - apply (keeps_fire_timer (bounded E) (book_only_bounded E) E);
      auto using bounded_close.
  - now apply (keeps_run_idle (bounded E) (book_only_bounded E)).
  - now apply (keeps_start_listen_sockets (bounded E) (book_only_bounded E)).
  - unfold exec, cleanup. rewrite cleanup_sockets_run. exact H.
Qed.

(** As long as no named-pipe connection arrives, the pending set stays
    within the bound through every input of the loop. *)
Theorem pending_bounded_without_named_pipe E ins st :
  forallb not_named_pipe ins = true ->
  bounded E st -> bounded E (steps E ins st).
Proof.
  revert st. induction ins as [| i ins IH]; intros st Hins H; [exact H |].
  cbn in Hins. apply andb_true_iff in Hins as [Hi Hins].
  cbn [steps fold_left]. apply IH; [exact Hins |]. now apply bounded_step.
Qed.

Lemma pending_bounded_without_named_pipe_witness :
  bounded env0 init_client /\
  bounded env0
    (steps env0
       [InConnection "tcp" 7%nat 0 (Some 105%nat);
        InConnection "socket" 8%nat 0 (Some 106%nat);
        InPacket 0%nat (hello_packet "id")] st_full).
Proof.
  assert (H0 : bounded env0 init_client) by (vm_compute; discriminate).
  split; [exact H0 |].
  apply (pending_bounded_without_named_pipe env0); [reflexivity |].
  apply (pending_bounded_without_named_pipe env0); [reflexivity | exact H0].
Defined.

Lemma reachable_wf_witness :
  reachable env0 st_hello /\ wf st_hello.
Proof.
  assert (Hr : reachable env0 st_hello).
  { apply (reachable_step env0 (InPacket 0%nat (hello_packet "id"))).
    apply (reachable_step env0 (InConnection "tcp" 7%nat 0 (Some 100%nat))).
    apply reachable_init. }
  split; [exact Hr |]. apply (reachable_wf env0 st_hello Hr).
Defined.

(** ** Further properties of the packet handler *)

(** A packet whose type is neither [hello] nor one of the two closing
    tags is answered with a protocol-error disconnect and nothing else,
    the close timer is armed, and the pending set is left alone. *)
Theorem unhandled_packet_disconnects_and_arms E p packet v st :
  nth_error packet 0 = Some v ->
  py_str E v <> "hello" ->
  py_str E v <> CONNECTION_LOST -> py_str E v <> GIBBERISH ->
  let m := process_network_packet E p packet in
  let st' := exec m st in
  let tid := next_tid (loop st) in
  returns m st = true /\
  emitted m st =
    [EvLog Debug "process_network_packet: %s";
     EvLog Info "packet '%s' is not handled by this client";
     EvSendDisconnect p [PROTOCOL_ERROR] None;
     EvTimeoutAdd (REQUEST_TIMEOUT E * 1000) (CbClose p) tid] /\
  dict_get p (_close_timers st') = Some tid /\
  _potential_protocols st' = _potential_protocols st.
Proof.
  intros Hv H1 H2 H3 m st' tid.
  pose proof (process_other_packet E p packet v st Hv H1 H2 H3) as Hrun.
  fold m in Hrun.
  assert (Hexec : st' = after_arm E p
            (advance
               [EvLog Debug "process_network_packet: %s";
                EvLog Info "packet '%s' is not handled by this client";
                EvSendDisconnect p [PROTOCOL_ERROR] None] [] st)).
  { subst st'. unfold exec. now rewrite Hrun. }
  split; [unfold returns; now rewrite Hrun |].
  split; [apply (emitted_after_arm m E p _ [] st Hexec) |].
  rewrite Hexec. split; [apply dict_get_set_eq | reflexivity].
Qed.

Lemma unhandled_packet_disconnects_and_arms_witness :
  py_str env0 (VStr "ping") <> "hello" /\
  _potential_protocols (exec (process_network_packet env0 0%nat [VStr "ping"]) st_accepted)
  = _potential_protocols st_accepted.
Proof.
  split; [discriminate |].
  apply (unhandled_packet_disconnects_and_arms env0 0%nat [VStr "ping"] (VStr "ping")
           st_accepted); [reflexivity | discriminate | discriminate | discriminate].
Defined.

(** A [hello] that carries no request, or an empty one, is not
    dispatched: the capabilities are parsed, nothing is sent to the peer
    and nothing is queued, and the close timer is armed all the same. *)
Theorem hello_without_request_sends_nothing E p caps rest st :
  strget E caps "request" = None \/ strget E caps "request" = Some "" ->
  let m := process_network_packet E p (VStr "hello" :: VDict caps :: rest) in
  let st' := exec m st in
  returns m st = true /\
  emitted m st =
    [EvLog Debug "process_network_packet: %s"; EvParseRemoteCaps p caps;
     EvEnableCompressor p caps; EvEnableEncoder p caps;
     EvTimeoutAdd (REQUEST_TIMEOUT E * 1000) (CbClose p) (next_tid (loop st))] /\
  idle (loop st') = idle (loop st) /\
  dict_get p (_close_timers st') = Some (next_tid (loop st)).
Proof.
  intros Hreq m st'.
  assert (Hrun : m st =
            (Ok tt,
             after_arm E p
               (advance
                  [EvLog Debug "process_network_packet: %s"; EvParseRemoteCaps p caps;
                   EvEnableCompressor p caps; EvEnableEncoder p caps] [] st))).
  { subst m. unfold process_network_packet.
    rewrite (bind_simple _ _ _ _ _ (simple_log _ _)).
    cbn [getitem nth_error]. rewrite bind_ret.
    change (py_str E (VStr "hello") =? "hello")%string with true. cbv iota.
    rewrite bind_ret. cbn [typedict].
    change (lift (Ok caps)) with (@ret (gmap string pyval) caps). rewrite bind_ret.
    rewrite (bind_simple _ _ _ _ _ (simple_emit _)).
    rewrite (bind_simple _ _ _ _ _ (simple_emit _)).
    rewrite (bind_simple _ _ _ _ _ (simple_emit _)).
    assert (Hd : simple (match strget E caps "request" with
                         | Some r => if str_truthy r
                                     then handle_hello_request E p r caps else ret tt
                         | None => ret tt
                         end) [] []).
    { destruct Hreq as [-> | ->]; apply simple_ret. }
    rewrite (bind_simple _ _ _ _ _ Hd).
    rewrite !advance_advance. cbn [app].
    apply arm_close_timer_run. }
  assert (Hexec : st' = after_arm E p
            (advance
               [EvLog Debug "process_network_packet: %s"; EvParseRemoteCaps p caps;
                EvEnableCompressor p caps; EvEnableEncoder p caps] [] st)).
  { subst st'. unfold exec. now rewrite Hrun. }
  split; [unfold returns; now rewrite Hrun |].
  split; [apply (emitted_after_arm m E p _ [] st Hexec) |].
  rewrite Hexec. split; [cbn; apply app_nil_r | apply dict_get_set_eq].
Qed.

Lemma hello_without_request_sends_nothing_witness :
  strget env0 ∅ "request" = None /\
  returns (process_network_packet env0 0%nat [VStr "hello"; VDict ∅]) st_accepted = true.
Proof.
  split; [reflexivity |].
  apply (hello_without_request_sends_nothing env0 0%nat ∅ [] st_accepted).
  left; reflexivity.
Defined.

(** A packet with no type tag, and a [hello] with nothing after its
    tag, make the handler raise [IndexError] after its debug line:
    nothing is sent, no timer is armed and the bookkeeping is as
    before. *)
Theorem truncated_packet_raises E p packet v st :
  packet = [] \/
  (nth_error packet 0 = Some v /\ py_str E v = "hello" /\ nth_error packet 1 = None) ->
  let m := process_network_packet E p packet in
  fst (m st) = Raise IndexError /\
  exec m st = set_trace (trace st ++ [EvLog Debug "process_network_packet: %s"]) st.
Proof.
  intros Hp m.
  assert (Hrun : m st =
            (Raise IndexError, advance [EvLog Debug "process_network_packet: %s"] [] st)).
  { subst m. unfold process_network_packet.
    rewrite (bind_simple _ _ _ _ _ (simple_log _ _)).
    destruct Hp as [-> | (Hv & Hh & Hv1)].
    - reflexivity.
    - unfold getitem at 1. rewrite Hv, bind_ret, Hh.
      change ("hello" =? "hello")%string with true. cbv iota.
      unfold getitem. rewrite Hv1. reflexivity. }
  unfold exec. rewrite Hrun. split; [reflexivity |]. cbn [snd].
  unfold advance. destruct st as [? ? ? ? ? ? ? ? [? ? ?] ?]; cbn.
  now rewrite app_nil_r.
Qed.

Lemma truncated_packet_raises_witness :
  fst (process_network_packet env0 0%nat [VStr "hello"] st_accepted) = Raise IndexError.
Proof.
  apply (truncated_packet_raises env0 0%nat [VStr "hello"] (VStr "hello") st_accepted).
  right. repeat split.
Defined.

(** ** Closing twice, and timers that fire *)

Lemma dict_del_absent {V} k (d : list (nat * V)) :
  dict_get k d = None -> dict_del k d = d.
Proof.
  induction d as [| [k0 v0] d IH]; cbn; [reflexivity |].
  destruct (k0 =? k)%nat; [discriminate |]. intros H. now rewrite IH.
Qed.

Lemma list_remove_absent x l : ~ In x l -> list_remove x l = None.
Proof.
  induction l as [| y l IH]; cbn; intros Hn; [reflexivity |].
  destruct (Nat.eqb_spec y x); [tauto |]. rewrite IH; tauto.
Qed.

Lemma close_noop p st :
  dict_get p (_close_timers st) = None ->
  ~ In p (_potential_protocols st) ->
  close p st = (Ok tt, st).
Proof.
  intros Ht Hp. rewrite close_run. f_equal.
  unfold after_close, timer_recorded.
  rewrite Ht, (dict_del_absent _ _ Ht), (list_remove_absent _ _ Hp).
  destruct st; cbn. now rewrite app_nil_r.
Qed.

(** [close()] is idempotent: once it ran for an instance, running it
    again (a late timer, or [connection-lost] arriving after a timeout
    close) returns normally, closes nothing and leaves the client
    exactly as it was. *)
Theorem close_twice_is_close_once p st :
  NoDup (_potential_protocols st) ->
  NoDup (map fst (_close_timers st)) ->
  let st1 := exec (close p) st in
  close p st1 = (Ok tt, st1) /\ emitted (close p) st1 = [].
Proof.
  intros Hpp Hct st1.
  assert (Hst1 : st1 = after_close p st).
  { unfold st1, exec. now rewrite close_run. }
  assert (Hrun : close p st1 = (Ok tt, st1)).
  { apply close_noop; rewrite Hst1; cbn.
    - now apply dict_del_nodup.
    - now apply after_remove_not_in. }
  split; [exact Hrun |].
  unfold emitted, exec. rewrite Hrun. cbn [snd]. apply drop_all.
Qed.

Lemma close_twice_is_close_once_witness :
  NoDup (_potential_protocols st_hello) /\
  NoDup (map fst (_close_timers st_hello)) /\
  emitted (close 0%nat) (exec (close 0%nat) st_hello) = [].
Proof.
  assert (H1 : NoDup (_potential_protocols st_hello)).
  { vm_compute. repeat constructor. intros H. inversion H. }
  assert (H2 : NoDup (map fst (_close_timers st_hello))).
  { vm_compute. repeat constructor. intros H. inversion H. }
  split; [exact H1 |]. split; [exact H2 |].
  apply (close_twice_is_close_once 0%nat st_hello H1 H2).
Defined.

Lemma find_timer_cancel t l : find_timer t (timers (cancel_timer t l)) = None.
Proof.
  destruct l as [ts nt idl]. cbn. induction ts as [| [t' [ms cb]] ts IH]; cbn;
    [reflexivity |].
  destruct (Z.eqb_spec t' t) as [-> | Hne]; cbn; [exact IH |].
  destruct (Z.eqb_spec t' t); [congruence | exact IH].
Qed.

Lemma fire_timer_close E t p st :
  find_timer t (timers (loop st)) = Some (CbClose p) ->
  fire_timer E t st =
  (Ok tt, set_loop (cancel_timer t (loop st)) (after_close p st)).
Proof.
  intros Hf. unfold fire_timer. rewrite bind_gets, Hf. cbn [run_callback].
  unfold bind. rewrite close_run. reflexivity.
Qed.

(** When a live close timer fires for an instance that has a timer
    recorded, the protocol is closed, the instance leaves the pending
    set and the timer map, and the timer that fired is no longer
    scheduled. *)
Theorem close_timer_firing_reclaims E p t st :
  find_timer t (timers (loop st)) = Some (CbClose p) ->
  timer_recorded p st = true ->
  NoDup (_potential_protocols st) ->
  NoDup (map fst (_close_timers st)) ->
  let m := fire_timer E t in
  let st' := exec m st in
  returns m st = true /\
  emitted m st = [EvProtocolClose p] /\
  ~ In p (_potential_protocols st') /\
  dict_get p (_close_timers st') = None /\
  find_timer t (timers (loop st')) = None.
Proof.
  intros Hf Hrec Hpp Hct m st'.
  pose proof (fire_timer_close E t p st Hf) as Hrun. fold m in Hrun.
  assert (Hst : st' = set_loop (cancel_timer t (loop st)) (after_close p st)).
  { unfold st', exec. now rewrite Hrun. }
  split; [unfold returns; now rewrite Hrun |].
  split.
  { unfold emitted. fold st'. rewrite Hst. cbn. rewrite Hrec.
    apply drop_app_length. }
  rewrite Hst. cbn.
  split; [now apply after_remove_not_in |].
  split; [now apply dict_del_nodup |].
  apply (find_timer_cancel t (loop st)).
Qed.

Lemma close_timer_firing_reclaims_witness :
  find_timer 1 (timers (loop st_hello)) = Some (CbClose 0%nat) /\
  timer_recorded 0%nat st_hello = true /\
  emitted (fire_timer env0 1) st_hello = [EvProtocolClose 0%nat].
Proof.
  assert (H1 : NoDup (_potential_protocols st_hello)).
  { vm_compute. repeat constructor. intros H. inversion H. }
  assert (H2 : NoDup (map fst (_close_timers st_hello))).
  { vm_compute. repeat constructor. intros H. inversion H. }
  assert (H3 : find_timer 1 (timers (loop st_hello)) = Some (CbClose 0%nat))
    by (vm_compute; reflexivity).
  assert (H4 : timer_recorded 0%nat st_hello = true) by (vm_compute; reflexivity).
  split; [exact H3 |]. split; [exact H4 |].
  apply (close_timer_firing_reclaims env0 0%nat 1 st_hello H3 H4 H1 H2).
Defined.

(** A close timer that outlived its instance is harmless: when it fires
    for an instance that has no timer recorded and is not pending, the
    callback returns normally, closes nothing, traces nothing, and the
    only change is that the timer is gone from the loop. *)
Theorem stale_timer_firing_is_noop E p t st :
  find_timer t (timers (loop st)) = Some (CbClose p) ->
  dict_get p (_close_timers st) = None ->
  ~ In p (_potential_protocols st) ->
  let m := fire_timer E t in
  returns m st = true /\
  emitted m st = [] /\
  exec m st = set_loop (cancel_timer t (loop st)) st.
Proof.
  intros Hf Ht Hp m.
  assert (Hrun : m st = (Ok tt, set_loop (cancel_timer t (loop st)) st)).
  { subst m. unfold fire_timer. rewrite bind_gets, Hf. cbn [run_callback].
    unfold bind. rewrite (close_noop p st Ht Hp). reflexivity. }
  split; [unfold returns; now rewrite Hrun |].
  split; [| unfold exec; now rewrite Hrun].
  unfold emitted, exec. rewrite Hrun. cbn. apply drop_all.
Qed.

Lemma stale_timer_firing_is_noop_witness :
  find_timer 1 (timers (loop st_lost)) = Some (CbClose 0%nat) /\
  dict_get 0%nat (_close_timers st_lost) = None /\
  ~ In 0%nat (_potential_protocols st_lost) /\
  emitted (fire_timer env0 1) st_lost = [].
Proof.
  assert (H1 : find_timer 1 (timers (loop st_lost)) = Some (CbClose 0%nat))
    by (vm_compute; reflexivity).
  assert (H2 : dict_get 0%nat (_close_timers st_lost) = None)
    by (vm_compute; reflexivity).
  assert (H3 : ~ In 0%nat (_potential_protocols st_lost))
    by (vm_compute; tauto).
  split; [exact H1 |]. split; [exact H2 |]. split; [exact H3 |].
  apply (stale_timer_firing_is_noop env0 0%nat 1 st_lost H1 H2 H3).
Defined.

(** ** Further properties of the dispatcher *)

Lemma handle_hello_request_outcome E p request caps :
  exists evs ks,
    simple (handle_hello_request E p request caps) evs ks /\
    (length (List.filter is_send evs) + length (List.filter is_reply_task ks) = 1)%nat /\
    Forall (fun k => is_reply_task k = true ->
                     k = TaskSendInfo p \/ exists c, k = TaskProcessControl p c) ks.
Proof.
  unfold handle_hello_request.
  repeat match goal with
         | |- context [if ?c then _ else _] => destruct c
         end;
    (do 2 eexists; split; [simple_steps | split; [reflexivity |]]);
    cbn [app];
    repeat (apply List.Forall_cons; [cbn; intros Hk; first [discriminate | eauto] |]);
    apply List.Forall_nil.
Qed.

Lemma send_info_simple E p :
  exists info,
    simple (send_info E p) [EvSendNow p [VStr "hello"; VDict info]] [] /\
    info !! "network" = Some (get_network_caps E) /\
    info !! "session-type" =
      Some (VStr (str_or (get_session_type E) (platform_name E) ++ " client")) /\
    info !! "display" =
      match reported_display E with
      | Some d => Some (VStr d)
      | None => get_info E !! "display"
      end /\
    (forall k, k <> "network" -> k <> "session-type" -> k <> "display" ->
               info !! k = get_info E !! k).
Proof.
  unfold send_info, reported_display.
  destruct (opt_or (environ_get E "WAYLAND_DISPLAY") (environ_get E "DISPLAY")) as [d |].
  - destruct (str_truthy d && POSIX E && negb (OSX E)).
    + eexists. split; [apply simple_hello_reply |].
      repeat split; intros; now simplify_map_eq.
    + eexists. split; [apply simple_hello_reply |].
      repeat split; intros; now simplify_map_eq.
  - eexists. split; [apply simple_hello_reply |].
    repeat split; intros; now simplify_map_eq.
Qed.

(** Every request, whatever its name and whether or not it is allowed,
    gets exactly one answer: either one packet is sent during the call
    (a hello reply or a disconnect), or one replying task is queued, and
    such a task, when the loop runs it, returns normally and sends
    exactly one hello reply to the same protocol. *)
Theorem every_request_gets_one_answer E p request caps st :
  let m := handle_hello_request E p request caps in
  let queued := drop (length (idle (loop st))) (idle (loop (exec m st))) in
  (length (List.filter is_send (emitted m st)) +
   length (List.filter is_reply_task queued) = 1)%nat /\
  forall k, In k queued -> is_reply_task k = true ->
    forall s,
      returns (run_task E k) s = true /\
      exists data,
        List.filter is_send (emitted (run_task E k) s) =
        [EvSendNow p [VStr "hello"; VDict data]].
Proof.
  intros m queued.
  destruct (handle_hello_request_outcome E p request caps) as (evs & ks & Hs & Hone & Hks).
  fold m in Hs.
  assert (Hq : queued = ks).
  { unfold queued. rewrite (simple_exec m evs ks st Hs). cbn.
    apply drop_app_length. }
  rewrite (simple_emitted m evs ks st Hs), Hq. split; [exact Hone |].
  intros k Hk Hrep s. rewrite Forall_forall in Hks.
  rewrite <- list_elem_of_In in Hk.
  destruct (Hks k Hk Hrep) as [-> | [c ->]]; cbn [run_task].
  - destruct (send_info_simple E p) as (info & Hsi & _).
    rewrite (simple_returns _ _ _ s Hsi), (simple_emitted _ _ _ s Hsi).
    split; [reflexivity | now exists info].
  - unfold returns, emitted, exec. rewrite process_control_run. cbn.
    split; [reflexivity |]. rewrite drop_app_length. cbn. eauto.
Qed.

(** The reply to an [info] request carries the network capabilities
    under [network], the session type (or, when that is empty, the
    platform name) followed by " client" under [session-type], and the
    display taken from [WAYLAND_DISPLAY] or else [DISPLAY] under
    [display], but only on POSIX systems other than macOS; every other
    key is as [get_info] gave it. *)
Theorem info_reply_payload E p st :
  let m := run_task E (TaskSendInfo p) in
  returns m st = true /\
  exists info,
    emitted m st = [EvSendNow p [VStr "hello"; VDict info]] /\
    info !! "network" = Some (get_network_caps E) /\
    info !! "session-type" =
      Some (VStr (str_or (get_session_type E) (platform_name E) ++ " client")) /\
    info !! "display" =
      match reported_display E with
      | Some d => Some (VStr d)
      | None => get_info E !! "display"
      end /\
    (forall k, k <> "network" -> k <> "session-type" -> k <> "display" ->
               info !! k = get_info E !! k).
Proof.
  intros m. destruct (send_info_simple E p) as (info & Hs & H1 & H2 & H3 & H4).
  change m with (send_info E p).
  rewrite (simple_returns _ _ _ st Hs), (simple_emitted _ _ _ st Hs).
  split; [reflexivity |]. exists info. auto.
Qed.

(** A permitted [detach] request sends no hello reply: the peer is sent
    a disconnect whose reason is the detach code, with a completion
    callback; when the protocol runs that callback the client is told to
    disconnect and quit with [ExitCode.OK]. *)
Theorem detach_request_disconnects_then_quits E p caps st :
  is_request_allowed E p "detach" = true ->
  let m := handle_hello_request E p "detach" caps in
  returns m st = true /\
  emitted m st = [EvSendDisconnect p [DETACH_REQUEST] (Some CbProtocolClosed)] /\
  idle (loop (exec m st)) = idle (loop st) /\
  forall s,
    returns (run_callback E CbProtocolClosed) s = true /\
    emitted (run_callback E CbProtocolClosed) s =
      [EvDisconnectAndQuit (ExitCode_OK E) "network request"].
Proof.
  intros Ha m.
  assert (Hs : simple m [EvSendDisconnect p [DETACH_REQUEST] (Some CbProtocolClosed)] []).
  { subst m. unfold handle_hello_request. rewrite Ha. cbn.
    apply simple_send_disconnect. }
  rewrite (simple_returns _ _ _ st Hs), (simple_emitted _ _ _ st Hs),
    (simple_exec _ _ _ st Hs).
  split; [reflexivity |]. split; [reflexivity |].
  split; [cbn; apply app_nil_r |].
  intros s. cbn [run_callback].
  rewrite (simple_returns _ _ _ s (simple_emit _)),
    (simple_emitted _ _ _ s (simple_emit _)). auto.
Qed.

Lemma detach_request_disconnects_then_quits_witness :
  is_request_allowed env0 0%nat "detach" = true /\
  emitted (handle_hello_request env0 0%nat "detach" ∅) st_accepted =
    [EvSendDisconnect 0%nat [DETACH_REQUEST] (Some CbProtocolClosed)].
Proof.
  split; [reflexivity |].
  apply (detach_request_disconnects_then_quits env0 0%nat ∅ st_accepted).
  reflexivity.
Defined.

(** A permitted [show-menu], [show-about] or [show-session-info]
    request looks up the method named like the request with dashes
    turned into underscores.  If the client has it, the method is
    scheduled and an empty reply is sent at once; if not, the reply says
    that the request was not found.  Either way the peer gets a hello
    reply, never a disconnect. *)
Theorem ui_request_replies E p request caps st :
  is_request_allowed E p request = true ->
  is_ui_request request = true ->
  let m := handle_hello_request E p request caps in
  let fn := replace_char "-" "_" request in
  In fn ["show_menu"; "show_about"; "show_session_info"] /\
  (has_method E fn = true ->
   emitted m st =
     [EvLog Info "calling {fn}"; EvIdleAdd (TaskMethod fn);
      EvSendNow p [VStr "hello"; VDict ∅]] /\
   idle (loop (exec m st)) = idle (loop st) ++ [TaskMethod fn]) /\
  (has_method E fn = false ->
   emitted m st =
     [EvSendNow p [VStr "hello"; VDict {[ "error" := VStr (request ++ " not found") ]}]] /\
   idle (loop (exec m st)) = idle (loop st)).
Proof.
  intros Ha Hui m fn.
  assert (Hreq : request = "show-menu" \/ request = "show-about" \/
                 request = "show-session-info").
  { unfold is_ui_request in Hui. rewrite !orb_true_iff, !String.eqb_eq in Hui. tauto. }
  assert (Hfn : In fn ["show_menu"; "show_about"; "show_session_info"]).
  { subst fn. destruct Hreq as [-> | [-> | ->]]; cbn; tauto. }
  split; [exact Hfn |].
  assert (Hm : m = if negb (has_method E fn)
                   then hello_reply p {[ "error" := VStr (request ++ " not found") ]}
                   else (log Info "calling {fn}" ;; idle_add (TaskMethod fn) ;;
                         hello_reply p ∅)).
  { subst m fn. unfold handle_hello_request. rewrite Ha.
    destruct Hreq as [-> | [-> | ->]]; reflexivity. }
  split; intros Hh; rewrite Hm, Hh; cbn [negb].
  - assert (Hs : simple (log Info "calling {fn}" ;; idle_add (TaskMethod fn) ;;
                         hello_reply p ∅)
                   ([EvLog Info "calling {fn}"] ++ [EvIdleAdd (TaskMethod fn)] ++
                    [EvSendNow p [VStr "hello"; VDict ∅]])
                   ([] ++ [TaskMethod fn] ++ [])) by simple_steps.
    rewrite (simple_emitted _ _ _ st Hs), (simple_exec _ _ _ st Hs).
    split; reflexivity.
  - rewrite (simple_emitted _ _ _ st (simple_hello_reply _ _)),
      (simple_exec _ _ _ st (simple_hello_reply _ _)).
    split; [reflexivity | cbn; apply app_nil_r].
Qed.

Lemma ui_request_replies_witness :
  is_request_allowed env0 0%nat "show-about" = true /\
  is_ui_request "show-about" = true /\
  In (replace_char "-" "_" "show-about") ["show_menu"; "show_about"; "show_session_info"].
Proof.
  split; [reflexivity |]. split; [reflexivity |].
  apply (ui_request_replies env0 0%nat "show-about" ∅ st_accepted); reflexivity.
Defined.

(** ** Further properties of admission *)

(** The new-connection callback never raises: it returns [True] exactly
    when the client is not shutting down, also when handling the
    connection failed.  With an empty socket type the assertion of
    [handle_new_connection] fails before anything is accepted; the
    failure is logged as an error and the client is otherwise
    untouched. *)
Theorem new_connection_traps_errors E socktype l handle accepted st :
  let m := _new_connection E socktype l handle accepted in
  fst (m st) = Ok (match exit_code st with None => true | Some _ => false end) /\
  (exit_code st = None -> socktype = "" ->
   emitted m st =
     [EvLog Debug "_new_connection%s";
      EvLog Error "Error handling new {socktype} connection"] /\
   exec m st = set_trace (trace st ++ emitted m st) st).
Proof.
  intros m. unfold m at 1. rewrite _new_connection_run. split; [reflexivity |].
  intros Hec ->.
  assert (Hst : exec m st =
            advance [EvLog Debug "_new_connection%s";
                     EvLog Error "Error handling new {socktype} connection"] [] st).
  { unfold exec, m. rewrite _new_connection_run. cbn [snd].
    unfold after_new_connection. rewrite Hec. cbn. now rewrite advance_advance. }
  rewrite (emitted_advance m _ _ st Hst). split; [reflexivity |].
  rewrite Hst. unfold advance.
  destruct st as [? ? ? ? ? ? ? ? [? ? ?] ?]; cbn. now rewrite app_nil_r.
Qed.

(** On a socket listener (any kind but named-pipe), what
    [accept_connection] yields decides: with no connection nothing is
    set up; with a connection and the pending set below the bound,
    exactly one protocol is created for it, given the lower-cased socket
    type, appended at the end of the pending set and started. *)
Theorem accepted_connection_admitted_below_bound E socktype l handle st :
  exit_code st = None ->
  str_truthy socktype = true ->
  (socktype =? "named-pipe")%string = false ->
  (let m := _new_connection E socktype l handle None in
   emitted m st = [EvLog Debug "_new_connection%s"; EvAccept socktype l] /\
   _potential_protocols (exec m st) = _potential_protocols st) /\
  (forall c,
     (Z.of_nat (length (_potential_protocols st)) < MAX_CONCURRENT_CONNECTIONS E)%Z ->
     let m := _new_connection E socktype l handle (Some c) in
     let p := next_object st in
     emitted m st =
       [EvLog Debug "_new_connection%s"; EvAccept socktype l;
        EvLog Debug "handle_new_connection%s sockname=%s"; EvLogNewConnection c;
        EvProtocolNew p c; EvProtocolSetAttr p "socket_type" (VStr (lower socktype));
        EvProtocolSetAttr p "authenticators" (VTuple []); EvProtocolStart p] /\
     _potential_protocols (exec m st) = _potential_protocols st ++ [p]).
Proof.
  intros Hec Hs Hnp. split.
  - intros m.
    assert (Hst : exec m st =
              advance [EvLog Debug "_new_connection%s"; EvAccept socktype l] [] st).
    { unfold exec, m. rewrite _new_connection_run. cbn [snd].
      unfold after_new_connection. rewrite Hec, Hs, Hnp. cbn [negb].
      now rewrite advance_advance. }
    rewrite (emitted_advance m _ _ st Hst), Hst. split; reflexivity.
  - intros c Hlt m p.
    assert (Hst : exec m st =
              after_make_protocol socktype c
                (advance [EvLog Debug "_new_connection%s"; EvAccept socktype l;
                          EvLog Debug "handle_new_connection%s sockname=%s";
                          EvLogNewConnection c] [] st)).
    { unfold exec, m. rewrite _new_connection_run. cbn [snd].
      unfold after_new_connection. rewrite Hec, Hs, Hnp. cbn [negb].
      assert (Hge : (Z.of_nat (length (_potential_protocols st)) >=?
                     MAX_CONCURRENT_CONNECTIONS E)%Z = false)
        by (rewrite Z.geb_leb; apply Z.leb_gt; lia).
      rewrite Hge. now rewrite advance_advance. }
    split; [| rewrite Hst; reflexivity].
    unfold emitted. rewrite Hst. cbn. rewrite <- !app_assoc.
    apply drop_app_length.
Qed.

Lemma accepted_connection_admitted_below_bound_witness :
  exit_code st_accepted = None /\
  (Z.of_nat (length (_potential_protocols st_accepted)) < MAX_CONCURRENT_CONNECTIONS env0)%Z /\
  _potential_protocols
    (exec (_new_connection env0 "TCP" 7%nat 0 (Some 101%nat)) st_accepted) = [0; 1]%nat.
Proof.
  assert (Hec : exit_code st_accepted = None) by (vm_compute; reflexivity).
  assert (Hlt : (Z.of_nat (length (_potential_protocols st_accepted)) <
                 MAX_CONCURRENT_CONNECTIONS env0)%Z) by (vm_compute; reflexivity).
  split; [exact Hec |]. split; [exact Hlt |].
  destruct (accepted_connection_admitted_below_bound env0 "TCP" 7%nat 0 st_accepted
              Hec eq_refl eq_refl) as [_ H].
  destruct (H 101%nat Hlt) as [_ H']. rewrite H'. vm_compute. reflexivity.
Defined.

(** ** Listening sockets *)








(** ** Teardown of the close timers *)

Lemma timers_cancelled_app a b :
  timers_cancelled (a ++ b) = timers_cancelled a ++ timers_cancelled b.
Proof.
  induction a as [| ev a IH]; [reflexivity |].
  destruct ev; cbn; rewrite IH; reflexivity.
Qed.

Lemma protocol_closes_app a b :
  protocol_closes (a ++ b) = protocol_closes a ++ protocol_closes b.
Proof.
  induction a as [| ev a IH]; [reflexivity |].
  destruct ev; cbn; rewrite IH; reflexivity.
Qed.

Lemma timer_teardown_events ct :
  timers_cancelled (timer_teardown ct) = map snd ct /\
  protocol_closes (timer_teardown ct) = map fst ct.
Proof.
  unfold timer_teardown.
  induction ct as [| [p t] ct [IH1 IH2]]; [split; reflexivity |].
  cbn. now rewrite IH1, IH2.
Qed.

Lemma trapped_calls_events {A} E msg (g : A -> nat) l :
  timers_cancelled (flat_map (fun x => trapped_call E msg (g x)) l) = [] /\
  protocol_closes (flat_map (fun x => trapped_call E msg (g x)) l) = [].
Proof.
  induction l as [| x l [IH1 IH2]]; [split; reflexivity |].
  cbn [flat_map]. rewrite timers_cancelled_app, protocol_closes_app, IH1, IH2.
  unfold trapped_call. now destruct (call_cleanup E (g x)).
Qed.

Lemma find_timer_cancel_other t t' l :
  t <> t' -> find_timer t (timers (cancel_timer t' l)) = find_timer t (timers l).
Proof.
  intros Hne. destruct l as [ts nt idl]. cbn.
  induction ts as [| [t0 [ms cb]] ts IH]; cbn; [reflexivity |].
  destruct (Z.eqb_spec t0 t') as [-> | H0]; cbn.
  - destruct (Z.eqb_spec t' t); [congruence | exact IH].
  - destruct (Z.eqb_spec t0 t); [reflexivity | exact IH].
Qed.

Lemma find_timer_cancel_all t ts l :
  find_timer t (timers (cancel_all ts l)) =
  if existsb (Z.eqb t) ts then None else find_timer t (timers l).
Proof.
  revert l. induction ts as [| t' ts IH]; intros l; [reflexivity |].
  change (cancel_all (t' :: ts) l) with (cancel_all ts (cancel_timer t' l)).
  rewrite IH. cbn [existsb].
  destruct (Z.eqb_spec t t') as [-> | Hne]; cbn [orb].
  - rewrite find_timer_cancel. now destruct (existsb (Z.eqb t') ts).
  - now rewrite find_timer_cancel_other.
Qed.

(** Teardown cancels exactly the recorded close timers and closes
    exactly the protocols they were recorded for, in the order of the
    timer map: afterwards none of those timers is scheduled, a timer
    that was not recorded is left as it was, and a pending protocol
    without a recorded timer is not closed. *)
Theorem cleanup_cancels_recorded_timers E st :
  let m := cleanup_sockets E in
  let st' := exec m st in
  timers_cancelled (emitted m st) = map snd (_close_timers st) /\
  protocol_closes (emitted m st) = map fst (_close_timers st) /\
  (forall t, In t (map snd (_close_timers st)) ->
             find_timer t (timers (loop st')) = None) /\
  (forall t, ~ In t (map snd (_close_timers st)) ->
             find_timer t (timers (loop st')) = find_timer t (timers (loop st))).
Proof.
  intros m st'.
  assert (Hem : emitted m st = cleanup_trace E st).
  { unfold emitted, exec, m. rewrite cleanup_sockets_run. cbn.
    apply drop_app_length. }
  assert (Hst : st' = after_cleanup E st).
  { unfold st', exec, m. now rewrite cleanup_sockets_run. }
  destruct (timer_teardown_events (_close_timers st)) as [T1 T2].
  assert (A : timers_cancelled
                (flat_map (trapped_call E "Error during socket listener cleanup %s")
                   (socket_cleanup st)) = [] /\
              protocol_closes
                (flat_map (trapped_call E "Error during socket listener cleanup %s")
                   (socket_cleanup st)) = [])
    by exact (trapped_calls_events E _ (fun c => c) (socket_cleanup st)).
  destruct A as [A1 A2].
  destruct (trapped_calls_events E "Error during socket cleanup %s"
              (fun so : sock_def * gmap string pyval => sd_cleanup (fst so))
              (sockets st)) as [B1 B2].
  rewrite Hem. unfold cleanup_trace.
  rewrite !timers_cancelled_app, !protocol_closes_app, T1, T2, A1, A2, B1, B2.
  cbn [timers_cancelled protocol_closes app]. rewrite !app_nil_r.
  split; [reflexivity |]. split; [reflexivity |].
  rewrite Hst. cbn [after_cleanup loop set_sockets set_socket_cleanup
                      set_close_timers set_trace set_loop].
  split; intros t Ht; rewrite find_timer_cancel_all.
  - assert (Hex : existsb (Z.eqb t) (map snd (_close_timers st)) = true).
    { apply existsb_exists. exists t. split; [exact Ht | apply Z.eqb_refl]. }
    now rewrite Hex.
  - destruct (existsb (Z.eqb t) (map snd (_close_timers st))) eqn:Hex; [| reflexivity].
    apply existsb_exists in Hex as (t' & Hin & Heq).
    apply Z.eqb_eq in Heq. subst t'. contradiction.
Qed.

(** ** Isolation between protocols *)

Lemma handle_hello_request_about E p request caps :
  exists evs ks,
    simple (handle_hello_request E p request caps) evs ks /\ Forall (about p) evs.
Proof.
  unfold handle_hello_request.
  repeat match goal with
         | |- context [if ?c then _ else _] => destruct c
         end;
    (do 2 eexists; split; [simple_steps |]);
    cbn [app]; repeat (apply List.Forall_cons; [exact I || reflexivity |]);
    apply List.Forall_nil.
Qed.

Lemma list_remove_other x y l :
  y <> x -> (In y (default l (list_remove x l)) <-> In y l).
Proof.
  intros Hne. destruct (list_remove x l) as [r |] eqn:Hr; cbn; [| tauto].
  revert r Hr. induction l as [| z l IH]; cbn; intros r Hr; [discriminate |].
  destruct (Nat.eqb_spec z x) as [-> | Hz].
  - injection Hr as <-. split; [tauto | intros [H | H]; [congruence | exact H]].
  - destruct (list_remove x l) as [r' |]; [| discriminate].
    injection Hr as <-. cbn. specialize (IH r' eq_refl). tauto.
Qed.

Lemma dict_get_del_ne {V} k k' (d : list (nat * V)) :
  k' <> k -> dict_get k' (dict_del k d) = dict_get k' d.
Proof.
  intros Hne. induction d as [| [k0 v0] d IH]; cbn; [reflexivity |].
  destruct (Nat.eqb_spec k0 k) as [-> | Hk]; cbn.
  - destruct (Nat.eqb_spec k k'); congruence.
  - now rewrite IH.
Qed.

(** Every run of the packet handler has one of three shapes: it only
    traced and queued (it raised, or had nothing to do), it closed, or
    it armed; and what it traced before that is about [p] only. *)
Lemma process_network_packet_shapes E p packet st :
  exists evs ks,
    Forall (about p) evs /\
    (exec (process_network_packet E p packet) st = advance evs ks st \/
     exec (process_network_packet E p packet) st = after_close p (advance evs ks st) \/
     exec (process_network_packet E p packet) st = after_arm E p (advance evs ks st)).
Proof.
  destruct (nth_error packet 0) as [v |] eqn:Hv.
  - destruct (String.eqb_spec (py_str E v) "hello") as [Hh | Hh].
    + destruct (nth_error packet 1) as [v1 |] eqn:Hv1.
      * destruct (typedict E v1) as [caps | e] eqn:Hc.
        -- assert (Hd : exists evs ks,
                     Forall (about p) evs /\
                     simple (match strget E caps "request" with
                             | Some r => if str_truthy r
                                         then handle_hello_request E p r caps
                                         else ret tt
                             | None => ret tt
                             end) evs ks).
           { destruct (strget E caps "request") as [r |];
               [destruct (str_truthy r) |].
             - destruct (handle_hello_request_about E p r caps) as (evs & ks & H1 & H2).
               eauto.
             - exists [], []. split; [constructor | apply simple_ret].
             - exists [], []. split; [constructor | apply simple_ret]. }
           destruct Hd as (evs & ks & Habout & Hs).
           exists ([EvLog Debug "process_network_packet: %s"; EvParseRemoteCaps p caps;
                    EvEnableCompressor p caps; EvEnableEncoder p caps] ++ evs), ks.
           split.
           { cbn [app]. repeat (apply List.Forall_cons; [exact I || reflexivity |]).
             exact Habout. }
           right; right. unfold exec, process_network_packet.
           rewrite (bind_simple _ _ _ _ _ (simple_log _ _)).
           unfold getitem at 1. rewrite Hv, bind_ret, Hh.
           change ("hello" =? "hello")%string with true. cbv iota.
           unfold getitem. rewrite Hv1, bind_ret, Hc.
           change (lift (Ok caps)) with (@ret (gmap string pyval) caps).
           rewrite bind_ret.
           rewrite (bind_simple _ _ _ _ _ (simple_emit _)).
           rewrite (bind_simple _ _ _ _ _ (simple_emit _)).
           rewrite (bind_simple _ _ _ _ _ (simple_emit _)).
           rewrite (bind_simple _ _ _ _ _ Hs).
           rewrite !advance_advance. cbn [app].
           change (snd (arm_close_timer E p
                          (advance
                             (EvLog Debug "process_network_packet: %s"
                              :: EvParseRemoteCaps p caps
                              :: EvEnableCompressor p caps
                              :: EvEnableEncoder p caps :: evs) ks st)) = 
                   after_arm E p
                     (advance
                        (EvLog Debug "process_network_packet: %s"
                         :: EvParseRemoteCaps p caps
                         :: EvEnableCompressor p caps
                         :: EvEnableEncoder p caps :: evs) ks st)).
           reflexivity.
        -- exists [EvLog Debug "process_network_packet: %s"], [].
           split; [repeat constructor |]. left.
           unfold exec, process_network_packet.
           rewrite (bind_simple _ _ _ _ _ (simple_log _ _)).
           unfold getitem at 1. rewrite Hv, bind_ret, Hh.
           change ("hello" =? "hello")%string with true. cbv iota.
           unfold getitem. rewrite Hv1, bind_ret, Hc. reflexivity.
      * exists [EvLog Debug "process_network_packet: %s"], [].
        split; [repeat constructor |]. left.
        unfold exec, process_network_packet.
        rewrite (bind_simple _ _ _ _ _ (simple_log _ _)).
        unfold getitem at 1. rewrite Hv, bind_ret, Hh.
        change ("hello" =? "hello")%string with true. cbv iota.
        unfold getitem. rewrite Hv1. reflexivity.
    + destruct (String.eqb_spec (py_str E v) CONNECTION_LOST) as [Hc | Hc];
        [| destruct (String.eqb_spec (py_str E v) GIBBERISH) as [Hg | Hg]].
      * exists [EvLog Debug "process_network_packet: %s"], [].
        split; [repeat constructor |]. right; left. unfold exec.
        now rewrite (process_closing_packet E p packet v st Hv (or_introl Hc)).
      * exists [EvLog Debug "process_network_packet: %s"], [].
        split; [repeat constructor |]. right; left. unfold exec.
        now rewrite (process_closing_packet E p packet v st Hv (or_intror Hg)).
      * eexists _, []. split; [| right; right; unfold exec;
          now rewrite (process_other_packet E p packet v st Hv Hh Hc Hg)].
        repeat (apply List.Forall_cons; [exact I || reflexivity |]).
        apply List.Forall_nil.
  - exists [EvLog Debug "process_network_packet: %s"], [].
    split; [repeat constructor |]. left.
    unfold exec, process_network_packet.
    rewrite (bind_simple _ _ _ _ _ (simple_log _ _)).
    unfold getitem. rewrite Hv. reflexivity.
Qed.

(** Handling a packet of one protocol never touches another one: every
    call, timer and replying task it issues is for that protocol, and
    for any other protocol the membership in the pending set and the
    recorded close timer are as before, whatever the packet and also
    when the handler raises. *)
Theorem packet_handling_is_isolated E p packet st :
  let m := process_network_packet E p packet in
  let st' := exec m st in
  Forall (about p) (emitted m st) /\
  forall q, q <> p ->
    (In q (_potential_protocols st') <-> In q (_potential_protocols st)) /\
    dict_get q (_close_timers st') = dict_get q (_close_timers st).
Proof.
  intros m st'.
  destruct (process_network_packet_shapes E p packet st)
    as (evs & ks & Habout & [Hst | [Hst | Hst]]); fold m in Hst; fold st' in Hst.
  - rewrite (emitted_advance m evs ks st Hst), Hst. split; [exact Habout |].
    intros q Hq. split; reflexivity.
  - split.
    + unfold emitted. fold st'. rewrite Hst. cbn.
      rewrite <- app_assoc, drop_app_length.
      apply Forall_app. split; [exact Habout |].
      destruct (timer_recorded p (advance evs ks st)); repeat constructor.
    + intros q Hq. rewrite Hst. cbn. split.
      * now apply list_remove_other.
      * now apply dict_get_del_ne.
  - split.
    + rewrite (emitted_after_arm m E p evs ks st Hst).
      apply Forall_app. split; [exact Habout | repeat constructor].
    + intros q Hq. rewrite Hst. cbn. split; [reflexivity |].
      now apply dict_get_set_ne.
Qed.
